(** * torchaudio.sox_effects: effect chains and the SoX lifecycle flag

    A shallow embedding of [torchaudio/sox_effects.py]:
    - the module-level flag [_SOX_INITIALIZED] with [initialize_sox] and
      [shutdown_sox];
    - the class [SoxEffectsChain] with [append_effect_to_chain],
      [sox_build_flow_effects], [clear_chain], [set_input_file],
      [_check_effect] and [_flatten].

    The C++ extension [_torchaudio] and the helpers of
    [torchaudio._internal.misc_ops] are an interface ([Torchaudio] below):
    every statement holds for all of its implementations.

    Python strings are modelled as [string]; [str.lower] acts on the ASCII
    letters (SoX effect names are ASCII). *)

From Stdlib Require Import ZArith Ascii DecimalString.
From stdpp Require Import base list strings gmap.

Set Warnings "-register-all".

Open Scope Z_scope.

(** ** Python values, exceptions *)

Module Py.

(** Values that are not lists.  [eargs] is annotated
    [Optional[Union[List[str], str]]]; the docstring example passes an int. *)
Inductive scalar : Type :=
  | None_
  | Bool (b : bool)
  | Int (n : Z)
  | Str (s : string).

(** A value is a scalar or a Python list of values. *)
Inductive value : Type :=
  | Scalar (a : scalar)
  | List (l : list value).

(** [str(n)] for an int: decimal digits, a leading minus sign when negative. *)
Definition str_int (n : Z) : string := NilZero.string_of_int (Z.to_int n).

(** [str(a)] *)
Definition str (a : scalar) : string :=
  match a with
  | None_ => "None"
  | Bool true => "True"
  | Bool false => "False"
  | Int n => str_int n
  | Str s => s
  end.

(** The exceptions the module raises, with their messages; [Foreign] stands
    for what the extension or a helper raises. *)
Inductive exn : Type :=
  | RuntimeError (msg : string)
  | NotImplementedError (msg : string)
  | LookupError (msg : string)
  | Foreign (msg : string).

(** The result of a call: it returns a value or raises. *)
Inductive outcome (A : Type) : Type :=
  | Return (a : A)
  | Raise (e : exn).
Arguments Return {A} a.
Arguments Raise {A} e.

Definition is_raise {A} (o : outcome A) : bool :=
  match o with
  | Raise _ => true
  | Return _ => false
  end.

(** [c.lower()] on one character. *)
Definition lower_ascii (c : ascii) : ascii :=
  let n := N_of_ascii c in
  if ((65 <=? n) && (n <=? 90))%N then ascii_of_N (n + 32) else c.

Definition is_upper_ascii (c : ascii) : bool :=
  let n := N_of_ascii c in ((65 <=? n) && (n <=? 90))%N.

(** [s.lower()] *)
Fixpoint lower (s : string) : string :=
  match s with
  | EmptyString => EmptyString
  | String c s' => String (lower_ascii c) (lower s')
  end.

(** Some character of [s] is an upper-case letter. *)
Fixpoint has_upper (s : string) : bool :=
  match s with
  | EmptyString => false
  | String c s' => is_upper_ascii c || has_upper s'
  end.

End Py.

Import Py.


(** ** The extension module and the helpers the file calls *)

(** [SoxEffect()]: the object handed to the engine, [ename] and [eopts]. *)
Record SoxEffect : Type := mkSoxEffect {
  ename : string;
  eopts : list string
}.

(** The arguments of one [_torchaudio.build_flow_effects] call. *)
Record flow_args (Tensor Any : Type) : Type := mkFlowArgs {
  fa_input_file : option string;
  fa_out : Tensor;
  fa_channels_first : bool;
  fa_out_siginfo : Any;
  fa_out_encinfo : Any;
  fa_filetype : string;
  fa_chain : list SoxEffect;
  fa_max_effect_opts : Z
}.
Arguments mkFlowArgs {Tensor Any}.
Arguments fa_input_file {Tensor Any}.
Arguments fa_out {Tensor Any}.
Arguments fa_channels_first {Tensor Any}.
Arguments fa_out_siginfo {Tensor Any}.
Arguments fa_out_encinfo {Tensor Any}.
Arguments fa_filetype {Tensor Any}.
Arguments fa_chain {Tensor Any}.
Arguments fa_max_effect_opts {Tensor Any}.

(** The two lifecycle entry points of the extension. *)
Inductive ext_call : Type :=
  | ExtInitializeSox
  | ExtShutdownSox.

(** What the file uses and does not define: [torch.FloatTensor()],
    [_misc_ops.check_input], [_misc_ops.normalize_audio] and the functions
    of [_torchaudio].  The status code of a lifecycle call may depend on the
    lifecycle calls made before it. *)
Class Torchaudio : Type := {
  Tensor : Type;
  Any : Type;
  Normalization : Type;
  FloatTensor : Tensor;
  check_input : Tensor -> outcome unit;
  normalize_audio : Tensor -> Normalization -> Tensor;
  ext_initialize_sox : list ext_call -> Z;
  ext_shutdown_sox : list ext_call -> Z;
  get_effect_names : list string;
  build_flow_effects : flow_args Tensor Any -> Tensor * outcome Z
}.

(** ** The lifecycle flag *)

Definition _SOX_SUCCESS_CODE : Z := 0.

(** Functions registered with [atexit]. *)
Inductive atexit_fn : Type :=
  | AtexitShutdownSox.

(** The module-level state: [_SOX_INITIALIZED] is [Some false] (not
    initialized), [Some true] (initialized) or [None] (already shut down);
    the registered exit handlers; the lifecycle calls made into the
    extension so far, oldest first. *)
Record process : Type := mkProcess {
  _SOX_INITIALIZED : option bool;
  atexit_registered : list atexit_fn;
  ext_calls : list ext_call
}.

(** The state at import time. *)
Definition process_init : process :=
  {| _SOX_INITIALIZED := Some false; atexit_registered := []; ext_calls := [] |}.

(** Truth value of an [Optional[bool]]. *)
Definition truthy (f : option bool) : bool :=
  match f with
  | Some b => b
  | None => false
  end.

(** [code == f] for an int [code] and an [Optional[bool]] [f]: a bool is the
    int 1 or 0, and no int equals [None]. *)
Definition int_eq_flag (code : Z) (f : option bool) : bool :=
  match f with
  | Some true => code =? 1
  | Some false => code =? 0
  | None => false
  end.

Section Lifecycle.
Context `{T : Torchaudio}.

Definition initialize_sox (p : process) : process * outcome Z :=
  match _SOX_INITIALIZED p with
  | None =>
      (p, Raise (RuntimeError
        "SoX effects chain has been already shut down. Can not initialize again."))
  | Some false =>
      let code := ext_initialize_sox (ext_calls p) in
      let calls := ext_calls p ++ [ExtInitializeSox] in
      if code =? _SOX_SUCCESS_CODE then
        ({| _SOX_INITIALIZED := Some true;
            atexit_registered := atexit_registered p ++ [AtexitShutdownSox];
            ext_calls := calls |}, Return code)
      else
        ({| _SOX_INITIALIZED := _SOX_INITIALIZED p;
            atexit_registered := atexit_registered p;
            ext_calls := calls |}, Return code)
  | Some true => (p, Return _SOX_SUCCESS_CODE)
  end.

Definition shutdown_sox (p : process) : process * outcome Z :=
  if truthy (_SOX_INITIALIZED p) then
    let code := ext_shutdown_sox (ext_calls p) in
    let calls := ext_calls p ++ [ExtShutdownSox] in
    if int_eq_flag code (_SOX_INITIALIZED p) then
      ({| _SOX_INITIALIZED := None;
          atexit_registered := atexit_registered p;
          ext_calls := calls |}, Return code)
    else
      ({| _SOX_INITIALIZED := _SOX_INITIALIZED p;
          atexit_registered := atexit_registered p;
          ext_calls := calls |}, Return code)
  else (p, Return _SOX_SUCCESS_CODE).

(** [effect_names()] *)
Definition effect_names : list string := get_effect_names.

End Lifecycle.

(** ** SoxEffectsChain *)

Definition EFFECTS_UNIMPLEMENTED : gset string :=
  {[ "spectrogram"; "splice"; "noiseprof"; "fir" ]}.

(** [x[:1]] and [x[1:]] *)
Definition slice_to_1 {A} (x : list A) : list A := take 1 x.
Definition slice_from_1 {A} (x : list A) : list A := drop 1 x.

(** [_flatten].  The recursion is not structural ([x[:1]] is as long as [x]
    when [x] has one element), so the function takes the number of nested
    calls it may make; [None] means that many were not enough.  In the
    third branch [x[0]] is not a list and [x[:1]] is [[x[0]]]. *)
Fixpoint _flatten (fuel : nat) (x : list value) : option (list string) :=
  match fuel with
  | O => None
  | S fuel' =>
      match x with
      | [] => Some []
      | List _ :: _ =>
          a ← _flatten fuel' (slice_to_1 x);
          b ← _flatten fuel' (slice_to_1 x);
          Some (a ++ b)
      | Scalar a :: _ =>
          rest ← _flatten fuel' (slice_from_1 x);
          Some ([str a] ++ rest)
      end
  end.

Section Chain.
Context `{T : Torchaudio}.

Record SoxEffectsChain : Type := mkChain {
  input_file : option string;
  chain : list SoxEffect;
  MAX_EFFECT_OPTS : Z;
  out_siginfo : Any;
  out_encinfo : Any;
  filetype : string;
  normalization : Normalization;
  channels_first : bool;
  EFFECTS_AVAILABLE : gset string
}.

(** [self.chain = c], every other attribute as it was. *)
Definition set_chain (self : SoxEffectsChain) (c : list SoxEffect) : SoxEffectsChain :=
  {| input_file := input_file self;
     chain := c;
     MAX_EFFECT_OPTS := MAX_EFFECT_OPTS self;
     out_siginfo := out_siginfo self;
     out_encinfo := out_encinfo self;
     filetype := filetype self;
     normalization := normalization self;
     channels_first := channels_first self;
     EFFECTS_AVAILABLE := EFFECTS_AVAILABLE self |}.

(** [__init__] *)
Definition __init__ (normalization_ : Normalization) (channels_first_ : bool)
    (out_siginfo_ out_encinfo_ : Any) (filetype_ : string) : SoxEffectsChain :=
  {| input_file := None;
     chain := [];
     MAX_EFFECT_OPTS := 20;
     out_siginfo := out_siginfo_;
     out_encinfo := out_encinfo_;
     filetype := filetype_;
     normalization := normalization_;
     channels_first := channels_first_;
     EFFECTS_AVAILABLE := list_to_set effect_names |}.

Definition _check_effect (self : SoxEffectsChain) (e : string) : outcome string :=
  if decide (lower e ∈ EFFECTS_UNIMPLEMENTED) then
    Raise (NotImplementedError
      ("This effect (" +:+ e +:+ ") is not implement in torchaudio"))
  else if decide (lower e ∉ EFFECTS_AVAILABLE self) then
    Raise (LookupError ("Effect name, " +:+ lower e +:+ ", not valid"))
  else Return (lower e).

(** The list handed to [_flatten]: [None] and [[]] become [[""]], a value
    that is not a list is wrapped. *)
Definition eargs_list (eargs : value) : list value :=
  match eargs with
  | Scalar None_ => [Scalar (Str "")]
  | List [] => [Scalar (Str "")]
  | List l => l
  | Scalar a => [Scalar a]
  end.

Definition too_many_options (n : nat) (max : Z) : exn :=
  RuntimeError
    ("Number of effect options (" +:+ str_int (Z.of_nat n)
     +:+ ") is greater than max suggested number of options " +:+ str_int max
     +:+ ".  Increase MAX_EFFECT_OPTS or lower the number of effect options").

(** [append_effect_to_chain]: the object after the call and how the call
    ended; [None] when [_flatten] did not return within [fuel] nested
    calls. *)
Definition append_effect_to_chain (fuel : nat) (self : SoxEffectsChain)
    (ename_ : string) (eargs : value) : option (SoxEffectsChain * outcome unit) :=
  match _check_effect self ename_ with
  | Raise e => Some (self, Raise e)
  | Return ename_ =>
      eargs ← _flatten fuel (eargs_list eargs);
      if Z.of_nat (length eargs) >? MAX_EFFECT_OPTS self then
        Some (self, Raise (too_many_options (length eargs) (MAX_EFFECT_OPTS self)))
      else
        let e := {| ename := ename_; eopts := eargs |} in
        Some (set_chain self (chain self ++ [e]), Return tt)
  end.

(** What [sox_build_flow_effects] leaves behind: the object, the calls made
    to [_torchaudio.build_flow_effects], and the result. *)
Record flow_result : Type := mkFlowResult {
  fr_self : SoxEffectsChain;
  fr_engine_calls : list (flow_args Tensor Any);
  fr_outcome : outcome (Tensor * Z)
}.

Definition no_effects : SoxEffect := {| ename := "no_effects"; eopts := [""] |}.

Definition sox_build_flow_effects (self : SoxEffectsChain) (out : option Tensor)
    : flow_result :=
  let checked :=
    match out with
    | Some t => match check_input t with
                | Return _ => Return t
                | Raise e => Raise e
                end
    | None => Return FloatTensor
    end in
  match checked with
  | Raise e => {| fr_self := self; fr_engine_calls := []; fr_outcome := Raise e |}
  | Return out =>
      let self :=
        if (length (chain self) =? 0)%nat
        then set_chain self (chain self ++ [no_effects])
        else self in
      let args :=
        mkFlowArgs (input_file self) out (channels_first self) (out_siginfo self)
          (out_encinfo self) (filetype self) (chain self) (MAX_EFFECT_OPTS self) in
      match build_flow_effects args with
      | (_, Raise e) =>
          {| fr_self := self; fr_engine_calls := [args]; fr_outcome := Raise e |}
      | (out, Return sr) =>
          {| fr_self := self; fr_engine_calls := [args];
             fr_outcome := Return (normalize_audio out (normalization self), sr) |}
      end
  end.

(** A supplied output tensor passes [check_input]; none supplied is fine. *)
Definition out_accepted (out : option Tensor) : Prop :=
  match out with
  | Some t => is_raise (check_input t) = false
  | None => True
  end.

Definition clear_chain (self : SoxEffectsChain) : SoxEffectsChain :=
  set_chain self [].

Definition set_input_file (self : SoxEffectsChain) (input_file_ : string)
    : SoxEffectsChain :=
  {| input_file := Some input_file_;
     chain := chain self;
     MAX_EFFECT_OPTS := MAX_EFFECT_OPTS self;
     out_siginfo := out_siginfo self;
     out_encinfo := out_encinfo self;
     filetype := filetype self;
     normalization := normalization self;
     channels_first := channels_first self;
     EFFECTS_AVAILABLE := EFFECTS_AVAILABLE self |}.

End Chain.

(** ** Concrete extensions, for running the definitions *)

(** Tensors are lists of samples; the engine knows [names], answers the
    lifecycle calls with [code_init] and [code_shut] and decodes every file
    to one sample at [sr] Hz. *)
Definition stub (names : list string) (code_init code_shut : list ext_call -> Z)
    (sr : Z) : Torchaudio :=
  {| Tensor := list Z;
     Any := unit;
     Normalization := bool;
     FloatTensor := [];
     check_input := fun _ => Return tt;
     normalize_audio := fun t _ => t;
     ext_initialize_sox := code_init;
     ext_shutdown_sox := code_shut;
     get_effect_names := names;
     build_flow_effects := fun a => (fa_out a ++ [0], Return sr) |}.

(** An engine whose lifecycle calls always report success. *)
Definition sox : Torchaudio :=
  stub ["rate"; "channels"; "vol"; "fir"] (fun _ => 0) (fun _ => 0) 16000.

(** An engine whose first [initialize_sox] fails with code 2. *)
Definition sox_flaky : Torchaudio :=
  stub ["rate"] (fun calls => if (length calls =? 0)%nat then 2 else 0)
    (fun _ => 0) 16000.

(** Engines that report names with upper-case letters. *)
Definition sox_Fir : Torchaudio := stub ["Fir"] (fun _ => 0) (fun _ => 0) 16000.
Definition sox_Rate : Torchaudio := stub ["Rate"] (fun _ => 0) (fun _ => 0) 16000.
Definition sox_Rate_rate : Torchaudio :=
  stub ["Rate"; "rate"] (fun _ => 0) (fun _ => 0) 16000.

(** [SoxEffectsChain()] with the default arguments. *)
Definition new_chain (T : Torchaudio) (norm : @Normalization T) (a : @Any T)
    : @SoxEffectsChain T :=
  __init__ norm true a a "raw".

Definition E0 : @SoxEffectsChain sox := new_chain sox true tt.

(** The process after a successful [initialize_sox] on the engine [sox]. *)
Definition p_initialized : process := fst (initialize_sox (T:=sox) process_init).

(** A chain over an engine that reports the name "Rate". *)
Definition E_Rate : @SoxEffectsChain sox_Rate := new_chain sox_Rate true tt.

Definition E_Fir : @SoxEffectsChain sox_Fir := new_chain sox_Fir true tt.
Definition E_Rate_rate : @SoxEffectsChain sox_Rate_rate :=
  new_chain sox_Rate_rate true tt.

(** The flattening the specification describes (depth first, order
    preserving, every leaf as its string), to compare [_flatten] with. *)
Fixpoint spec_flatten_value (v : value) : list string :=
  match v with
  | Scalar a => [str a]
  | List l => flat_map spec_flatten_value l
  end.

Definition spec_flatten (x : list value) : list string :=
  flat_map spec_flatten_value x.

(** [n] options ["0"]. *)
Definition zeros (n : nat) : value := List (replicate n (Scalar (Int 0))).

(** ** Runs of the lifecycle functions and of the chain methods *)

Section Runs.
Context `{T : Torchaudio}.

(** One call of [initialize_sox] or [shutdown_sox], whatever it returns. *)
Inductive lifecycle_step (p : process) : process -> Prop :=
  | step_initialize : lifecycle_step p (fst (initialize_sox p))
  | step_shutdown : lifecycle_step p (fst (shutdown_sox p)).

(** The comment on [_SOX_INITIALIZED]: False -> True -> None. *)
Definition phase (p : process) : nat :=
  match _SOX_INITIALIZED p with
  | Some false => 0
  | Some true => 1
  | None => 2
  end.

(** The exit handler and the engine log, by the value of the flag. *)
Definition lifecycle_inv (p : process) : Prop :=
  exists n m : nat,
    ext_calls p = replicate n ExtInitializeSox ++ replicate m ExtShutdownSox
    /\ match _SOX_INITIALIZED p with
       | Some false => m = 0%nat /\ atexit_registered p = []
       | Some true => (1 <= n)%nat /\ atexit_registered p = [AtexitShutdownSox]
       | None => (1 <= n)%nat /\ (1 <= m)%nat
                 /\ atexit_registered p = [AtexitShutdownSox]
       end.

(** One call of a public method of [SoxEffectsChain] that returns or raises. *)
Inductive chain_step (self : SoxEffectsChain) : SoxEffectsChain -> Prop :=
  | step_append fuel name eargs self' o :
      append_effect_to_chain fuel self name eargs = Some (self', o) ->
      chain_step self self'
  | step_flow out :
      chain_step self (fr_self (sox_build_flow_effects self out))
  | step_clear :
      chain_step self (clear_chain self)
  | step_set_input_file f :
      chain_step self (set_input_file self f).

(** What the tests of [append_effect_to_chain] establish about an effect
    before it is stored. *)
Definition validated (self : SoxEffectsChain) (e : SoxEffect) : Prop :=
  ename e ∈ EFFECTS_AVAILABLE self ∖ EFFECTS_UNIMPLEMENTED
  /\ has_upper (ename e) = false
  /\ (1 <= length (eopts e))%nat
  /\ Z.of_nat (length (eopts e)) <= MAX_EFFECT_OPTS self.

(** The tensor handed to the engine: the caller's, or a new empty one. *)
Definition out_tensor (out : option Tensor) : Tensor :=
  match out with
  | Some t => t
  | None => FloatTensor
  end.

(** The attributes that [__init__] sets from its arguments and the engine. *)
Definition same_config (self self' : SoxEffectsChain) : Prop :=
  MAX_EFFECT_OPTS self' = MAX_EFFECT_OPTS self
  /\ out_siginfo self' = out_siginfo self
  /\ out_encinfo self' = out_encinfo self
  /\ filetype self' = filetype self
  /\ normalization self' = normalization self
  /\ channels_first self' = channels_first self
  /\ EFFECTS_AVAILABLE self' = EFFECTS_AVAILABLE self.

(** The stored sequence is validated effects, possibly behind one sentinel. *)
Definition stored_ok (self : SoxEffectsChain) : Prop :=
  exists c, Forall (validated self) c
            /\ (chain self = c \/ chain self = no_effects :: c).

End Runs.

(** An engine like [sox] whose [check_input] accepts only the empty tensor. *)
Definition sox_strict : Torchaudio :=
  {| Tensor := list Z;
     Any := unit;
     Normalization := bool;
     FloatTensor := [];
     check_input := fun t => match t with
                             | [] => Return tt
                             | _ => Raise (Foreign "Expected a tensor")
                             end;
     normalize_audio := fun t _ => t;
     ext_initialize_sox := fun _ => 0;
     ext_shutdown_sox := fun _ => 0;
     get_effect_names := ["rate"];
     build_flow_effects := fun a => (fa_out a ++ [0], Return 16000) |}.

(** A list has a list among its elements: some scalars, a list, the rest. *)
Definition has_list_element (x : list value) : Prop :=
  exists (pre : list scalar) (li rest : list value),
    x = (Scalar <$> pre) ++ List li :: rest.

(** Closed membership facts about concrete sets are decided by evaluation. *)
Ltac by_eval := apply (bool_decide_unpack _); vm_compute; exact I.

(** ** Properties of [_flatten] *)

Section Flatten.

Lemma _flatten_flat (l : list scalar) :
  forall fuel, (length l < fuel)%nat ->
    _flatten fuel (Scalar <$> l) = Some (str <$> l).
Proof.
  induction l as [|a l IH]; intros [|fuel] Hlt; simpl in *; try lia.
  - reflexivity.
  - unfold slice_from_1. simpl. rewrite drop_0.
    rewrite IH by lia. reflexivity.
Qed.

(** A list whose first element is a list: the call re-enters itself on
    [x[:1]], whose first element is that same list. *)
Lemma _flatten_list_head (l : list value) :
  forall fuel rest, _flatten fuel (List l :: rest) = None.
Proof.
  induction fuel as [|fuel IH]; intros rest; [reflexivity|].
  simpl. unfold slice_to_1. simpl. rewrite IH. reflexivity.
Qed.

(** The same behind any number of elements that are not lists. *)
Lemma _flatten_nested (pre : list scalar) (l rest : list value) :
  forall fuel, _flatten fuel ((Scalar <$> pre) ++ List l :: rest) = None.
Proof.
  induction pre as [|a pre IH]; intros fuel; simpl.
  - apply _flatten_list_head.
  - destruct fuel as [|fuel]; [reflexivity|].
    simpl. unfold slice_from_1. simpl. rewrite drop_0, IH. reflexivity.
Qed.

End Flatten.

(** ** Argument normalisation and flattening in [append_effect_to_chain] *)

(** C1 (the code departs from the claim).  With "rate" a valid name, the
    scalar argument 16000 is stored as the option sequence ["16000"], but the
    nested argument [[16000]] is never stored: [_flatten] re-enters itself on
    [x[:1]] without end, whatever number of nested calls is allowed, so the
    two calls do not store the same sequence. *)
Theorem C1_nested_rate_is_not_stored :
  (chain ∘ fst <$> append_effect_to_chain 2 E0 "rate" (Scalar (Int 16000))
     = Some [ {| ename := "rate"; eopts := ["16000"] |} ])
  /\ (forall fuel,
        append_effect_to_chain fuel E0 "rate" (List [List [Scalar (Int 16000)]])
          = None).
Proof.
  split; [vm_compute; reflexivity|].
  intros fuel. unfold append_effect_to_chain.
  replace (_check_effect E0 "rate") with (@Return string "rate")
    by (vm_compute; reflexivity).
  change (eargs_list (List [List [Scalar (Int 16000)]]))
    with [List [Scalar (Int 16000)]].
  rewrite _flatten_list_head. reflexivity.
Qed.

(** C2 (the code departs from the claim).  On the finite nested sequence
    [[16000]] the flattening step does not return: no number of nested calls
    is enough.  The same holds for every list that has a list among its
    elements after any number of scalars. *)
Theorem C2_flatten_nested_does_not_return :
  (forall fuel, _flatten fuel [List [Scalar (Int 16000)]] = None)
  /\ (forall fuel (pre : list scalar) (l rest : list value),
        _flatten fuel ((Scalar <$> pre) ++ List l :: rest) = None).
Proof.
  split.
  - intros fuel. apply _flatten_list_head.
  - intros fuel pre l rest. apply _flatten_nested.
Qed.

(** ** Execution and the stored chain *)

Section Flow.
Context `{T : Torchaudio}.

Lemma set_chain_same (self : SoxEffectsChain) :
  set_chain self (chain self) = self.
Proof. destruct self; reflexivity. Qed.

(** Execution never changes an attribute other than [chain]. *)
Lemma sox_build_flow_effects_frame (self : SoxEffectsChain) (out : option Tensor) :
  forall c, set_chain (fr_self (sox_build_flow_effects self out)) c = set_chain self c.
Proof.
  intros c. unfold sox_build_flow_effects.
  destruct out as [t|]; [destruct (check_input t) as [[]|e]|]; simpl; try reflexivity.
  all: destruct (length (chain self) =? 0)%nat;
    match goal with |- context [build_flow_effects ?a] =>
      destruct (build_flow_effects a) as [o [sr|e]] end; reflexivity.
Qed.

(** A chain that is not empty is handed over as it is and stays as it is. *)
Lemma sox_build_flow_effects_nonempty (self : SoxEffectsChain) (out : option Tensor) :
  chain self <> [] ->
  fr_self (sox_build_flow_effects self out) = self
  /\ Forall (fun a => fa_chain a = chain self)
       (fr_engine_calls (sox_build_flow_effects self out)).
Proof.
  intros Hne. unfold sox_build_flow_effects.
  destruct (chain self) as [|e0 c] eqn:Hc; [congruence|].
  destruct out as [t|]; [destruct (check_input t) as [[]|e]|]; simpl;
    try (split; [reflexivity | constructor]).
  all: match goal with |- context [build_flow_effects ?a] =>
      destruct (build_flow_effects a) as [o [sr|e]] end; simpl;
    (split; [reflexivity | repeat constructor; simpl; assumption]).
Qed.

(** An empty chain gets the sentinel appended, and keeps it. *)
Lemma sox_build_flow_effects_empty (self : SoxEffectsChain) (out : option Tensor) :
  chain self = [] -> out_accepted out ->
  chain (fr_self (sox_build_flow_effects self out)) = [no_effects]
  /\ fa_chain <$> fr_engine_calls (sox_build_flow_effects self out) = [[no_effects]].
Proof.
  intros Hc Hout. unfold sox_build_flow_effects. rewrite Hc.
  destruct out as [t|]; simpl in Hout;
    [destruct (check_input t) as [[]|e]; simpl in Hout; [|discriminate]|]; simpl.
  all: match goal with |- context [build_flow_effects ?a] =>
      destruct (build_flow_effects a) as [o [sr|e]] end; simpl;
    split; reflexivity.
Qed.

End Flow.

(** C3, as stated, fails: a fresh chain is empty, and after one execution
    its stored effect sequence holds the sentinel. *)
Lemma C3_sentinel_persists :
  chain E0 = []
  /\ chain (fr_self (sox_build_flow_effects E0 None)) = [no_effects]
  /\ chain (fr_self (sox_build_flow_effects E0 None)) <> chain E0.
Proof.
  split; [reflexivity|].
  split; [vm_compute; reflexivity | vm_compute; discriminate].
Qed.

(** C3 (amended).  For every chain whose effect sequence is empty, an
    execution whose output tensor is accepted appends one sentinel effect
    named "no_effects" with the single option "" to the stored sequence and
    hands exactly that one-element sequence to the engine, once.  The
    sentinel stays stored after the call, whether the engine succeeds or
    fails, and no other attribute changes.  Emptiness is tested at every
    execution: the next execution finds the chain non-empty, hands over the
    same one-element sequence and adds nothing; after [clear_chain] the next
    execution appends a sentinel again. *)
Theorem C3_sentinel_appended_and_kept `{T : Torchaudio}
    (self : SoxEffectsChain) (out : option Tensor) :
  chain self = [] -> out_accepted out ->
  let r := sox_build_flow_effects self out in
  fr_self r = set_chain self [no_effects]
  /\ fa_chain <$> fr_engine_calls r = [[no_effects]]
  /\ (let r2 := sox_build_flow_effects (fr_self r) None in
      fr_self r2 = fr_self r /\ fa_chain <$> fr_engine_calls r2 = [[no_effects]])
  /\ (let r3 := sox_build_flow_effects (clear_chain (fr_self r)) None in
      chain (fr_self r3) = [no_effects]
      /\ fa_chain <$> fr_engine_calls r3 = [[no_effects]]).
Proof.
  intros Hc Hout r.
  destruct (sox_build_flow_effects_empty self out Hc Hout) as [Hr Hcalls].
  fold r in Hr, Hcalls.
  assert (Hself : fr_self r = set_chain self [no_effects]).
  { rewrite <- (set_chain_same (fr_self r)), Hr.
    apply sox_build_flow_effects_frame. }
  split; [exact Hself|]. split; [exact Hcalls|]. split.
  - intros r2.
    assert (Hne : chain (fr_self r) <> []) by (rewrite Hr; discriminate).
    destruct (sox_build_flow_effects_nonempty (fr_self r) None Hne) as [H1 H2].
    fold r2 in H1, H2. split; [exact H1|].
    assert (H3 : chain (fr_self r2) = [no_effects]) by (rewrite H1; exact Hr).
    subst r2. revert H2. unfold sox_build_flow_effects. simpl.
    rewrite Hr. simpl.
    match goal with |- context [build_flow_effects ?a] =>
      destruct (build_flow_effects a) as [o [sr|e]] end; simpl;
      rewrite Hr; reflexivity.
  - intros r3. apply sox_build_flow_effects_empty; [reflexivity | exact I].
Qed.

Lemma C3_sentinel_appended_and_kept_witness :
  chain E0 = [] /\ out_accepted (T:=sox) None
  /\ fr_self (sox_build_flow_effects E0 None) = set_chain E0 [no_effects].
Proof.
  split; [reflexivity|]. split; [exact I|].
  apply (@C3_sentinel_appended_and_kept sox E0 None); [reflexivity | exact I].
Defined.

(** ** The lifecycle flag *)

Section LifecycleFacts.
Context `{T : Torchaudio}.

(** [shutdown_sox] on an initialized process: the extension is called, and
    the flag becomes [None] exactly when the status equals [True], that is
    when it is 1. *)
Lemma shutdown_sox_initialized (p : process) :
  _SOX_INITIALIZED p = Some true ->
  let code := ext_shutdown_sox (ext_calls p) in
  snd (shutdown_sox p) = Return code
  /\ ext_calls (fst (shutdown_sox p)) = ext_calls p ++ [ExtShutdownSox]
  /\ _SOX_INITIALIZED (fst (shutdown_sox p)) = if code =? 1 then None else Some true.
Proof.
  intros Hf code. unfold shutdown_sox. rewrite Hf. simpl. fold code.
  destruct (code =? 1); simpl; auto.
Qed.

Lemma initialize_sox_after_shutdown (p : process) :
  _SOX_INITIALIZED p = None ->
  exists msg, initialize_sox p = (p, Raise (RuntimeError msg)).
Proof. intros Hf. unfold initialize_sox. rewrite Hf. eauto. Qed.

Lemma initialize_sox_initialized (p : process) :
  _SOX_INITIALIZED p = Some true ->
  initialize_sox p = (p, Return _SOX_SUCCESS_CODE).
Proof. intros Hf. unfold initialize_sox. rewrite Hf. reflexivity. Qed.

Lemma initialize_sox_uninitialized (p : process) :
  _SOX_INITIALIZED p = Some false ->
  let code := ext_initialize_sox (ext_calls p) in
  snd (initialize_sox p) = Return code
  /\ ext_calls (fst (initialize_sox p)) = ext_calls p ++ [ExtInitializeSox]
  /\ _SOX_INITIALIZED (fst (initialize_sox p))
       = (if code =? 0 then Some true else Some false)
  /\ atexit_registered (fst (initialize_sox p))
       = atexit_registered p ++ (if code =? 0 then [AtexitShutdownSox] else []).
Proof.
  intros Hf code. unfold initialize_sox. rewrite Hf. fold code.
  unfold _SOX_SUCCESS_CODE. destruct (code =? 0); simpl; rewrite ?Hf, ?app_nil_r; auto.
Qed.

End LifecycleFacts.

(** C4 (the code departs from the claim).  On an initialized process whose
    engine reports the success status 0 from its shutdown, [shutdown_sox]
    returns 0 and leaves the flag at [True]: the status is compared with the
    flag, not with the success code.  The next [initialize_sox] then returns
    0 instead of raising.  Were the status 1, the flag would become [None]
    and [initialize_sox] would raise from then on. *)
Theorem C4_shutdown_success_stays_initialized :
  _SOX_INITIALIZED p_initialized = Some true
  /\ snd (shutdown_sox (T:=sox) p_initialized) = Return 0
  /\ _SOX_INITIALIZED (fst (shutdown_sox (T:=sox) p_initialized)) = Some true
  /\ snd (initialize_sox (T:=sox) (fst (shutdown_sox (T:=sox) p_initialized)))
       = Return 0.
Proof. repeat split; vm_compute; reflexivity. Qed.

(** C9.  Called on an uninitialized process whose engine reports a status
    other than 0, [initialize_sox] returns that status, leaves the flag
    uninitialized and registers no exit handler; a later call therefore asks
    the engine again and initializes exactly when it then reports 0.  Called
    on an initialized process it returns 0 and changes nothing: in
    particular no call to the engine is made. *)
Theorem C9_initialize_failure_and_repeat `{T : Torchaudio} (p : process) :
  (_SOX_INITIALIZED p = Some false -> ext_initialize_sox (ext_calls p) <> 0 ->
     let p' := fst (initialize_sox p) in
     snd (initialize_sox p) = Return (ext_initialize_sox (ext_calls p))
     /\ _SOX_INITIALIZED p' = Some false
     /\ atexit_registered p' = atexit_registered p
     /\ ext_calls (fst (initialize_sox p'))
          = ext_calls p ++ [ExtInitializeSox; ExtInitializeSox]
     /\ _SOX_INITIALIZED (fst (initialize_sox p'))
          = (if ext_initialize_sox (ext_calls p') =? 0 then Some true else Some false))
  /\ (_SOX_INITIALIZED p = Some true ->
        snd (initialize_sox p) = Return 0
        /\ fst (initialize_sox p) = p
        /\ ext_calls (fst (initialize_sox p)) = ext_calls p).
Proof.
  split.
  - intros Hf Hcode p'.
    destruct (initialize_sox_uninitialized p Hf) as (Hr & Hcalls & Hflag & Hat).
    apply Z.eqb_neq in Hcode. rewrite Hcode in Hflag, Hat.
    rewrite app_nil_r in Hat. fold p' in Hflag, Hat, Hcalls.
    destruct (initialize_sox_uninitialized p' Hflag) as (_ & Hcalls' & Hflag' & _).
    split; [exact Hr|]. split; [exact Hflag|]. split; [exact Hat|].
    split; [|exact Hflag'].
    rewrite Hcalls', Hcalls, <- app_assoc. reflexivity.
  - intros Hf. rewrite (initialize_sox_initialized p Hf). auto.
Qed.

Lemma C9_initialize_failure_and_repeat_witness :
  (let p' := fst (initialize_sox (T:=sox_flaky) process_init) in
   snd (initialize_sox (T:=sox_flaky) process_init) = Return 2
   /\ _SOX_INITIALIZED p' = Some false
   /\ atexit_registered p' = []
   /\ ext_calls (fst (initialize_sox (T:=sox_flaky) p'))
        = [ExtInitializeSox; ExtInitializeSox]
   /\ _SOX_INITIALIZED (fst (initialize_sox (T:=sox_flaky) p')) = Some true)
  /\ (snd (initialize_sox (T:=sox) p_initialized) = Return 0
      /\ fst (initialize_sox (T:=sox) p_initialized) = p_initialized
      /\ ext_calls (fst (initialize_sox (T:=sox) p_initialized))
           = ext_calls p_initialized).
Proof.
  split.
  - apply (@C9_initialize_failure_and_repeat sox_flaky process_init).
    + reflexivity.
    + vm_compute. discriminate.
  - apply (@C9_initialize_failure_and_repeat sox p_initialized).
    vm_compute. reflexivity.
Defined.

(** ** Name validation *)

Lemma lower_ascii_not_upper (c : ascii) : is_upper_ascii (lower_ascii c) = false.
Proof. destruct c as [[] [] [] [] [] [] [] []]; reflexivity. Qed.

Lemma lower_no_upper (s : string) : has_upper (lower s) = false.
Proof.
  induction s as [|c s IH]; simpl; [reflexivity|].
  rewrite lower_ascii_not_upper, IH. reflexivity.
Qed.

Section Validation.
Context `{T : Torchaudio}.

Lemma _check_effect_unimplemented (self : SoxEffectsChain) (e : string) :
  lower e ∈ EFFECTS_UNIMPLEMENTED ->
  _check_effect self e
    = Raise (NotImplementedError ("This effect (" +:+ e +:+ ") is not implement in torchaudio")).
Proof. intros H. unfold _check_effect. rewrite decide_True by exact H. reflexivity. Qed.

Lemma _check_effect_not_found (self : SoxEffectsChain) (e : string) :
  lower e ∉ EFFECTS_UNIMPLEMENTED -> lower e ∉ EFFECTS_AVAILABLE self ->
  _check_effect self e
    = Raise (LookupError ("Effect name, " +:+ lower e +:+ ", not valid")).
Proof.
  intros H1 H2. unfold _check_effect.
  rewrite decide_False by exact H1. rewrite decide_True by exact H2. reflexivity.
Qed.

Lemma _check_effect_valid (self : SoxEffectsChain) (e : string) :
  lower e ∉ EFFECTS_UNIMPLEMENTED -> lower e ∈ EFFECTS_AVAILABLE self ->
  _check_effect self e = Return (lower e).
Proof.
  intros H1 H2. unfold _check_effect.
  rewrite decide_False by exact H1. rewrite decide_False by (intros H; exact (H H2)).
  reflexivity.
Qed.

(** The outcome depends on the name through its lower-cased form only, up to
    the text of the "unimplemented" message, which quotes the name as given. *)
Lemma _check_effect_return_inv (self : SoxEffectsChain) (e r : string) :
  _check_effect self e = Return r ->
  r = lower e /\ (lower e ∉ EFFECTS_UNIMPLEMENTED) /\ (lower e ∈ EFFECTS_AVAILABLE self).
Proof.
  unfold _check_effect. intros H.
  destruct (decide (lower e ∈ EFFECTS_UNIMPLEMENTED)) as [|H1]; [discriminate|].
  destruct (decide (lower e ∉ EFFECTS_AVAILABLE self)) as [|H2]; [discriminate|].
  injection H as <-. split; [reflexivity|]. split; [exact H1|].
  destruct (decide (lower e ∈ EFFECTS_AVAILABLE self)) as [H3|H3]; [exact H3|].
  exfalso. exact (H2 H3).
Qed.

Lemma append_effect_to_chain_raise_inv (fuel : nat) (self self' : SoxEffectsChain)
    (name : string) (eargs : value) (e : exn) :
  append_effect_to_chain fuel self name eargs = Some (self', Raise e) ->
  self' = self.
Proof.
  unfold append_effect_to_chain.
  destruct (_check_effect self name) as [name'|e0]; [|congruence].
  destruct (_flatten fuel (eargs_list eargs)) as [opts|]; simpl; [|discriminate].
  destruct (Z.of_nat (length opts) >? MAX_EFFECT_OPTS self); congruence.
Qed.

End Validation.

(** C5.  For every name: if its lower-cased form is in the unimplemented set,
    validation raises the "unimplemented" error, whatever the case of the
    name; otherwise, if the lower-cased form is not in the registry snapshot,
    it raises the "not found" error; otherwise it returns the lower-cased
    name.  [append_effect_to_chain] passes either error on as it is, for
    every argument, and leaves the object as it was. *)
Theorem C5_check_effect_kinds `{T : Torchaudio} (self : SoxEffectsChain) (name : string) :
  (lower name ∈ EFFECTS_UNIMPLEMENTED ->
     exists msg, _check_effect self name = Raise (NotImplementedError msg))
  /\ (lower name ∉ EFFECTS_UNIMPLEMENTED -> lower name ∉ EFFECTS_AVAILABLE self ->
        exists msg, _check_effect self name = Raise (LookupError msg))
  /\ (lower name ∉ EFFECTS_UNIMPLEMENTED -> lower name ∈ EFFECTS_AVAILABLE self ->
        _check_effect self name = Return (lower name))
  /\ (forall e fuel eargs, _check_effect self name = Raise e ->
        append_effect_to_chain fuel self name eargs = Some (self, Raise e)).
Proof.
  split; [|split; [|split]].
  - intros H. rewrite (_check_effect_unimplemented self name H). eauto.
  - intros H1 H2. rewrite (_check_effect_not_found self name H1 H2). eauto.
  - apply _check_effect_valid.
  - intros e fuel eargs H. unfold append_effect_to_chain. rewrite H. reflexivity.
Qed.

Lemma C5_check_effect_kinds_witness :
  (exists msg, _check_effect E0 "SpLiCe" = Raise (NotImplementedError msg))
  /\ (exists msg, _check_effect E0 "Reverb" = Raise (LookupError msg))
  /\ _check_effect E0 "RATE" = Return "rate"
  /\ append_effect_to_chain 3 E0 "FIR" (Scalar (Int 1))
       = Some (E0, Raise (NotImplementedError
                            "This effect (FIR) is not implement in torchaudio")).
Proof.
  split; [|split; [|split]].
  - apply (@C5_check_effect_kinds sox E0 "SpLiCe"). by_eval.
  - apply (@C5_check_effect_kinds sox E0 "Reverb"); by_eval.
  - apply (@C5_check_effect_kinds sox E0 "RATE"); by_eval.
  - apply (@C5_check_effect_kinds sox E0 "FIR"). vm_compute. reflexivity.
Defined.

(** ** Appending *)

Section Append.
Context `{T : Torchaudio}.

(** An argument that is absent, a scalar or a list of scalars, once
    normalised to the list [Scalar <$> l], is stored as [str <$> l]. *)
Lemma append_effect_to_chain_flat (fuel : nat) (self : SoxEffectsChain)
    (name : string) (eargs : value) (l : list scalar) :
  lower name ∈ EFFECTS_AVAILABLE self ∖ EFFECTS_UNIMPLEMENTED ->
  eargs_list eargs = Scalar <$> l ->
  Z.of_nat (length l) <= MAX_EFFECT_OPTS self ->
  (length l < fuel)%nat ->
  append_effect_to_chain fuel self name eargs
    = Some (set_chain self
              (chain self ++ [ {| ename := lower name; eopts := str <$> l |} ]),
            Return tt).
Proof.
  intros Hname Hl Hmax Hfuel.
  apply elem_of_difference in Hname as [Hin Hnot].
  unfold append_effect_to_chain.
  rewrite (_check_effect_valid self name Hnot Hin), Hl.
  rewrite (_flatten_flat l fuel Hfuel). simpl.
  rewrite length_fmap.
  destruct (Z.of_nat (length l) >? MAX_EFFECT_OPTS self) eqn:Hgt; [lia|reflexivity].
Qed.

(** With more than [MAX_EFFECT_OPTS] scalars the flattening step returns,
    given enough nested calls, and the length test raises. *)
Lemma append_effect_to_chain_flat_too_many (fuel : nat) (self : SoxEffectsChain)
    (name : string) (eargs : value) (l : list scalar) :
  lower name ∈ EFFECTS_AVAILABLE self ∖ EFFECTS_UNIMPLEMENTED ->
  eargs_list eargs = Scalar <$> l ->
  MAX_EFFECT_OPTS self < Z.of_nat (length l) ->
  (length l < fuel)%nat ->
  append_effect_to_chain fuel self name eargs
    = Some (self, Raise (too_many_options (length l) (MAX_EFFECT_OPTS self))).
Proof.
  intros Hname Hl Hmax Hfuel.
  apply elem_of_difference in Hname as [Hin Hnot].
  unfold append_effect_to_chain.
  rewrite (_check_effect_valid self name Hnot Hin), Hl.
  rewrite (_flatten_flat l fuel Hfuel). simpl.
  rewrite length_fmap.
  destruct (Z.of_nat (length l) >? MAX_EFFECT_OPTS self) eqn:Hgt; [reflexivity|lia].
Qed.

(** No method other than [__init__] assigns [EFFECTS_AVAILABLE]. *)
Lemma EFFECTS_AVAILABLE_append (fuel : nat) (self self' : SoxEffectsChain)
    (name : string) (eargs : value) (o : outcome unit) :
  append_effect_to_chain fuel self name eargs = Some (self', o) ->
  EFFECTS_AVAILABLE self' = EFFECTS_AVAILABLE self.
Proof.
  unfold append_effect_to_chain.
  destruct (_check_effect self name) as [name'|e0]; [|congruence].
  destruct (_flatten fuel (eargs_list eargs)) as [opts|]; simpl; [|discriminate].
  destruct (Z.of_nat (length opts) >? MAX_EFFECT_OPTS self);
    intros H; injection H as <- _; reflexivity.
Qed.

Lemma EFFECTS_AVAILABLE_flow (self : SoxEffectsChain) (out : option Tensor) :
  EFFECTS_AVAILABLE (fr_self (sox_build_flow_effects self out))
    = EFFECTS_AVAILABLE self.
Proof.
  change (EFFECTS_AVAILABLE (set_chain (fr_self (sox_build_flow_effects self out)) [])
          = EFFECTS_AVAILABLE (set_chain self [])).
  rewrite sox_build_flow_effects_frame. reflexivity.
Qed.

End Append.

(** C1's first two cases and its flat third case, on the code: an absent
    argument and the empty list are stored as [""], a scalar as its string,
    a list of scalars as their strings in order. *)
Example append_rate_examples :
  let opts args := (fun r => eopts <$> chain (fst r))
                     <$> append_effect_to_chain 9 E0 "rate" args in
  opts (Scalar None_) = Some [[""]]
  /\ opts (List []) = Some [[""]]
  /\ opts (Scalar (Int 16000)) = Some [["16000"]]
  /\ opts (List [Scalar (Int 16000)]) = Some [["16000"]]
  /\ opts (List [Scalar (Str "-q"); Scalar (Int (-3)); Scalar (Bool true)])
       = Some [["-q"; "-3"; "True"]].
Proof. repeat split; vm_compute; reflexivity. Qed.

(** C6 (the code departs from the claim).  The argument [[0]*21], a list
    holding one list of 21 options, flattens to 21 options, more than the
    bound of 20, and "rate" is a valid name; yet the call never raises the
    "too many options" error: [_flatten] re-enters itself on [x[:1]] and
    does not return, whatever number of nested calls is allowed, so the
    length test is not reached.  The same 21 options given as a flat list
    are rejected with that error and the object is left as it was. *)
Theorem C6_nested_options_are_not_rejected :
  _check_effect E0 "rate" = Return "rate"
  /\ MAX_EFFECT_OPTS E0
       < Z.of_nat (length (spec_flatten (eargs_list (List [zeros 21]))))
  /\ (forall fuel,
        append_effect_to_chain fuel E0 "rate" (List [zeros 21]) = None)
  /\ spec_flatten (eargs_list (zeros 21))
       = spec_flatten (eargs_list (List [zeros 21]))
  /\ append_effect_to_chain 30 E0 "rate" (zeros 21)
       = Some (E0, Raise (too_many_options 21 20)).
Proof.
  split; [vm_compute; reflexivity|].
  split; [vm_compute; reflexivity|].
  split; [|split; vm_compute; reflexivity].
  intros fuel. unfold append_effect_to_chain.
  replace (_check_effect E0 "rate") with (@Return string "rate")
    by (vm_compute; reflexivity).
  change (eargs_list (List [zeros 21])) with [zeros 21].
  unfold zeros. rewrite _flatten_list_head. reflexivity.
Qed.

(** C7, as stated, fails: "Rate" is in the registry snapshot and not in the
    unimplemented set, the absent argument flattens to one option, and the
    call raises the "not found" error, because the lower-cased name is what
    is looked up. *)
Lemma C7_snapshot_name_rejected :
  "Rate" ∈ EFFECTS_AVAILABLE E_Rate ∖ EFFECTS_UNIMPLEMENTED
  /\ forall fuel,
       append_effect_to_chain fuel E_Rate "Rate" (Scalar None_)
         = Some (E_Rate, Raise (LookupError "Effect name, rate, not valid")).
Proof.
  split; [by_eval|].
  intros fuel. unfold append_effect_to_chain.
  replace (_check_effect E_Rate "Rate")
    with (@Raise string (LookupError "Effect name, rate, not valid"))
    by (vm_compute; reflexivity).
  reflexivity.
Qed.

(** C7 (amended).  For every name whose lower-cased form is in the registry
    snapshot and not in the unimplemented set, and every argument that is
    absent, a scalar or a list of scalars with at most [MAX_EFFECT_OPTS]
    entries, [append_effect_to_chain] returns and the stored effect sequence
    grows by exactly one entry, the lower-cased name with the strings of the
    arguments, placed at the end.  Appending A and then B, B being any such
    call (A again included), stores the old sequence followed by A, B in
    that order. *)
Theorem C7_append_grows_by_one_in_order `{T : Torchaudio}
    (fuel : nat) (self : SoxEffectsChain)
    (nameA nameB : string) (eargsA eargsB : value) (lA lB : list scalar) :
  lower nameA ∈ EFFECTS_AVAILABLE self ∖ EFFECTS_UNIMPLEMENTED ->
  lower nameB ∈ EFFECTS_AVAILABLE self ∖ EFFECTS_UNIMPLEMENTED ->
  eargs_list eargsA = Scalar <$> lA ->
  eargs_list eargsB = Scalar <$> lB ->
  Z.of_nat (length lA) <= MAX_EFFECT_OPTS self ->
  Z.of_nat (length lB) <= MAX_EFFECT_OPTS self ->
  (length lA < fuel)%nat -> (length lB < fuel)%nat ->
  let A := {| ename := lower nameA; eopts := str <$> lA |} in
  let B := {| ename := lower nameB; eopts := str <$> lB |} in
  exists selfA selfB,
    append_effect_to_chain fuel self nameA eargsA = Some (selfA, Return tt)
    /\ chain selfA = chain self ++ [A]
    /\ length (chain selfA) = S (length (chain self))
    /\ append_effect_to_chain fuel selfA nameB eargsB = Some (selfB, Return tt)
    /\ chain selfB = chain self ++ [A; B]
    /\ selfB = set_chain self (chain selfB).
Proof.
  intros HA HB HlA HlB HmA HmB HfA HfB A B.
  exists (set_chain self (chain self ++ [A])).
  exists (set_chain self (chain self ++ [A; B])).
  split; [apply append_effect_to_chain_flat; assumption|].
  split; [reflexivity|].
  split; [simpl; rewrite length_app; simpl; lia|].
  split.
  - rewrite (append_effect_to_chain_flat fuel _ nameB eargsB lB) by assumption.
    simpl. rewrite <- app_assoc. reflexivity.
  - split; reflexivity.
Qed.

Lemma C7_append_grows_by_one_in_order_witness :
  exists selfA selfB,
    append_effect_to_chain 4 E0 "Rate" (List [Scalar (Int 16000)])
      = Some (selfA, Return tt)
    /\ chain selfA = chain E0 ++ [ {| ename := "rate"; eopts := ["16000"] |} ]
    /\ length (chain selfA) = S (length (chain E0))
    /\ append_effect_to_chain 4 selfA "channels" (Scalar (Str "1"))
         = Some (selfB, Return tt)
    /\ chain selfB = chain E0 ++ [ {| ename := "rate"; eopts := ["16000"] |};
                                   {| ename := "channels"; eopts := ["1"] |} ]
    /\ selfB = set_chain E0 (chain selfB).
Proof.
  apply (@C7_append_grows_by_one_in_order sox 4 E0 "Rate" "channels"
           (List [Scalar (Int 16000)]) (Scalar (Str "1")) [Int 16000] [Str "1"]).
  - by_eval.
  - by_eval.
  - reflexivity.
  - reflexivity.
  - vm_compute. discriminate.
  - vm_compute. discriminate.
  - simpl. lia.
  - simpl. lia.
Defined.

(** ** Clearing *)

(** C8.  [clear_chain] leaves the stored effect sequence empty and every
    other attribute as it was; an execution after it hands the engine the
    input file, the hints, the flag and the bound that were set before. *)
Theorem C8_clear_chain_frame `{T : Torchaudio} (self : SoxEffectsChain) :
  chain (clear_chain self) = []
  /\ input_file (clear_chain self) = input_file self
  /\ normalization (clear_chain self) = normalization self
  /\ channels_first (clear_chain self) = channels_first self
  /\ out_siginfo (clear_chain self) = out_siginfo self
  /\ out_encinfo (clear_chain self) = out_encinfo self
  /\ filetype (clear_chain self) = filetype self
  /\ MAX_EFFECT_OPTS (clear_chain self) = MAX_EFFECT_OPTS self
  /\ EFFECTS_AVAILABLE (clear_chain self) = EFFECTS_AVAILABLE self
  /\ (let r := sox_build_flow_effects (clear_chain self) None in
      fr_engine_calls r
        = [ mkFlowArgs (input_file self) FloatTensor (channels_first self)
              (out_siginfo self) (out_encinfo self) (filetype self)
              [no_effects] (MAX_EFFECT_OPTS self) ])
  /\ (forall out,
        Forall (fun a => fa_input_file a = input_file self)
          (fr_engine_calls (sox_build_flow_effects (clear_chain self) out))).
Proof.
  repeat (split; [reflexivity|]).
  split.
  - unfold sox_build_flow_effects. simpl.
    match goal with |- context [build_flow_effects ?a] =>
      destruct (build_flow_effects a) as [o [sr|e]] end; reflexivity.
  - intros out. unfold sox_build_flow_effects.
    destruct out as [t|]; [destruct (check_input t) as [[]|e]|]; simpl;
      try constructor.
    all: match goal with |- context [build_flow_effects ?a] =>
        destruct (build_flow_effects a) as [o [sr|e]] end; simpl;
      repeat constructor.
Qed.

(** ** The registry snapshot *)

(** C10, as stated, fails: a snapshot entry with an upper-case letter whose
    own spelling is rejected as "unimplemented", not as "not found"; and one
    whose own spelling is not rejected at all, because its lower-cased form
    is another entry. *)
Lemma C10_spelling_not_always_not_found :
  ("Fir" ∈ EFFECTS_AVAILABLE E_Fir /\ has_upper "Fir" = true
   /\ _check_effect E_Fir "Fir"
        = Raise (NotImplementedError "This effect (Fir) is not implement in torchaudio"))
  /\ ("Rate" ∈ EFFECTS_AVAILABLE E_Rate_rate /\ has_upper "Rate" = true
      /\ _check_effect E_Rate_rate "Rate" = Return "rate").
Proof.
  split; (split; [by_eval|]); split; vm_compute; reflexivity.
Qed.

(** C10 (amended).  Validation looks the lower-cased name up in the snapshot
    taken by [__init__].  For every snapshot entry that has an upper-case
    letter, no name validates to that entry; a spelling of it (a name with
    the same lower-cased form) is rejected as "not found" exactly when that
    lower-cased form is neither in the unimplemented set nor itself in the
    snapshot, is rejected as "unimplemented" when it is in the unimplemented
    set, and otherwise validates to the lower-cased form.  No later
    operation on the chain changes the snapshot. *)
Theorem C10_upper_case_entry_unreachable `{T : Torchaudio}
    (self : SoxEffectsChain) (entry : string) :
  entry ∈ EFFECTS_AVAILABLE self -> has_upper entry = true ->
  (forall name, _check_effect self name <> Return entry)
  /\ (forall name, lower name = lower entry ->
        ((exists msg, _check_effect self name = Raise (LookupError msg))
           <-> (lower entry ∉ EFFECTS_UNIMPLEMENTED) /\ (lower entry ∉ EFFECTS_AVAILABLE self))
        /\ ((exists msg, _check_effect self name = Raise (NotImplementedError msg))
              <-> lower entry ∈ EFFECTS_UNIMPLEMENTED)
        /\ (_check_effect self name = Return (lower entry)
              <-> (lower entry ∉ EFFECTS_UNIMPLEMENTED) /\ (lower entry ∈ EFFECTS_AVAILABLE self)))
  /\ (forall norm cf sig enc ft,
        EFFECTS_AVAILABLE (__init__ norm cf sig enc ft) = list_to_set get_effect_names)
  /\ (forall fuel name eargs self' o,
        append_effect_to_chain fuel self name eargs = Some (self', o) ->
        EFFECTS_AVAILABLE self' = EFFECTS_AVAILABLE self)
  /\ (forall out,
        EFFECTS_AVAILABLE (fr_self (sox_build_flow_effects self out))
          = EFFECTS_AVAILABLE self)
  /\ EFFECTS_AVAILABLE (clear_chain self) = EFFECTS_AVAILABLE self
  /\ (forall f, EFFECTS_AVAILABLE (set_input_file self f) = EFFECTS_AVAILABLE self).
Proof.
  intros Hin Hup.
  split.
  { intros name H. apply _check_effect_return_inv in H as (Heq & _).
    rewrite Heq, lower_no_upper in Hup. discriminate. }
  split.
  { intros name Hl. unfold _check_effect. rewrite Hl.
    destruct (decide (lower entry ∈ EFFECTS_UNIMPLEMENTED)) as [H1|H1];
      [|destruct (decide (lower entry ∉ EFFECTS_AVAILABLE self)) as [H2|H2]].
    - split; [|split]; split;
        solve [ intros [msg H]; discriminate | intros [? ?]; contradiction
              | intros _; assumption | discriminate | eauto ].
    - split; [|split]; split;
        solve [ intros [msg H]; discriminate | intros [? ?]; contradiction
              | contradiction | discriminate | eauto ].
    - assert (H3 : lower entry ∈ EFFECTS_AVAILABLE self).
      { destruct (decide (lower entry ∈ EFFECTS_AVAILABLE self));
          [assumption|contradiction]. }
      split; [|split]; split;
        solve [ intros [msg H]; discriminate | intros [? ?]; contradiction
              | contradiction | reflexivity | eauto ]. }
  split; [reflexivity|].
  split; [intros fuel name eargs self' o; apply EFFECTS_AVAILABLE_append|].
  split; [intros out; apply EFFECTS_AVAILABLE_flow|].
  split; reflexivity.
Qed.

Lemma C10_upper_case_entry_unreachable_witness :
  "Rate" ∈ EFFECTS_AVAILABLE E_Rate /\ has_upper "Rate" = true
  /\ (forall name, _check_effect E_Rate name <> Return "Rate")
  /\ (exists msg, _check_effect E_Rate "rAtE" = Raise (LookupError msg)).
Proof.
  assert (Hin : "Rate" ∈ EFFECTS_AVAILABLE E_Rate) by by_eval.
  assert (Hup : has_upper "Rate" = true) by reflexivity.
  pose proof (@C10_upper_case_entry_unreachable sox_Rate E_Rate "Rate" Hin Hup)
    as (Hnever & Hspell & _).
  split; [exact Hin|]. split; [exact Hup|]. split; [exact Hnever|].
  apply (Hspell "rAtE"); [reflexivity|]. split; by_eval.
Defined.

(** * Further properties of the code *)

(** ** [_flatten] *)

Section FlattenMore.

Lemma flat_or_has_list_element (x : list value) :
  (exists l : list scalar, x = Scalar <$> l) \/ has_list_element x.
Proof.
  induction x as [|v x IH].
  - left. exists []. reflexivity.
  - destruct v as [a|li].
    + destruct IH as [[l ->]|(pre & li & rest & ->)].
      * left. exists (a :: l). reflexivity.
      * right. exists (a :: pre), li, rest. reflexivity.
    + right. exists [], li, x. reflexivity.
Qed.

Lemma _flatten_flat_short (l : list scalar) :
  forall fuel, (fuel <= length l)%nat -> _flatten fuel (Scalar <$> l) = None.
Proof.
  induction l as [|a l IH]; intros [|fuel] Hle; simpl in *; try lia; try reflexivity.
  unfold slice_from_1. simpl. rewrite drop_0, IH by lia. reflexivity.
Qed.

Lemma _flatten_Some_inv (fuel : nat) (x : list value) (r : list string) :
  _flatten fuel x = Some r ->
  exists l : list scalar, x = Scalar <$> l /\ r = str <$> l /\ (length l < fuel)%nat.
Proof.
  intros H. destruct (flat_or_has_list_element x) as [[l ->]|(pre & li & rest & ->)].
  - destruct (decide (length l < fuel)%nat) as [Hlt|Hge].
    + rewrite (_flatten_flat l fuel Hlt) in H. injection H as <-. eauto.
    + rewrite (_flatten_flat_short l fuel) in H by lia. discriminate.
  - rewrite _flatten_nested in H. discriminate.
Qed.

(** Where [_flatten] returns, it returns what the specification's
    flattening gives. *)
Lemma _flatten_agrees_with_spec_flatten (fuel : nat) (x : list value) (r : list string) :
  _flatten fuel x = Some r -> r = spec_flatten x.
Proof.
  intros H. apply _flatten_Some_inv in H as (l & -> & -> & _).
  unfold spec_flatten. induction l as [|a l IH]; [reflexivity|].
  change (str a :: (str <$> l) = str a :: flat_map spec_flatten_value (Scalar <$> l)).
  f_equal. exact IH.
Qed.

End FlattenMore.

(** X1.  [_flatten] returns exactly on the lists whose elements are all
    scalars, given more nested calls than the list is long; the result is
    then the strings of the elements, in order and as many. *)
Theorem X1_flatten_returns_iff_flat (fuel : nat) (x : list value) (r : list string) :
  _flatten fuel x = Some r
  <-> exists l : list scalar,
        x = Scalar <$> l /\ r = str <$> l /\ (length l < fuel)%nat.
Proof.
  split.
  - apply _flatten_Some_inv.
  - intros (l & -> & -> & Hlt). apply _flatten_flat, Hlt.
Qed.

(** X2.  The result of [_flatten] does not depend on how many nested calls
    are allowed: once it returns, it returns the same list with any larger
    allowance, and that list is as long as the argument. *)
Theorem X2_flatten_fuel_monotone (fuel fuel' : nat) (x : list value) (r : list string) :
  _flatten fuel x = Some r -> (fuel <= fuel')%nat ->
  _flatten fuel' x = Some r /\ length r = length x.
Proof.
  intros H Hle. apply _flatten_Some_inv in H as (l & -> & -> & Hlt).
  split; [apply _flatten_flat; lia|].
  rewrite !length_fmap. reflexivity.
Qed.

Lemma X2_flatten_fuel_monotone_witness :
  _flatten 9 [Scalar (Str "-q"); Scalar (Int 3)] = Some ["-q"; "3"]
  /\ length ["-q"; "3"] = length [Scalar (Str "-q"); Scalar (Int 3)].
Proof.
  apply (X2_flatten_fuel_monotone 3 9 [Scalar (Str "-q"); Scalar (Int 3)] ["-q"; "3"]).
  - reflexivity.
  - lia.
Defined.

(** ** [append_effect_to_chain] *)

Section AppendMore.
Context `{T : Torchaudio}.

Lemma has_list_element_not_flat (l : list scalar) : ~ has_list_element (Scalar <$> l).
Proof.
  intros (pre & li & rest & H).
  pose proof (_flatten_flat l (S (length l)) ltac:(lia)) as Hflat.
  rewrite H, _flatten_nested in Hflat. discriminate.
Qed.

Lemma eargs_list_has_list_element (eargs : value) :
  has_list_element (eargs_list eargs) <->
  exists l, eargs = List l /\ has_list_element l.
Proof.
  split.
  - intros H. destruct eargs as [a|l].
    + exfalso. destruct a; simpl in H;
        match type of H with has_list_element [Scalar ?a] =>
          exact (has_list_element_not_flat [a] H) end.
    + destruct l as [|v l].
      * exfalso. exact (has_list_element_not_flat [Str ""] H).
      * exists (v :: l). split; [reflexivity|exact H].
  - intros (l & -> & Hl). destruct l as [|v l]; [|exact Hl].
    exfalso. exact (has_list_element_not_flat [] Hl).
Qed.

Lemma eargs_list_flat_nonempty (eargs : value) (l : list scalar) :
  eargs_list eargs = Scalar <$> l -> (1 <= length l)%nat.
Proof.
  destruct l as [|a l]; [|simpl; lia].
  destruct eargs as [[]|[|v x]]; discriminate.
Qed.

(** What a call that returns normally has done. *)
Lemma append_effect_to_chain_return_inv (fuel : nat) (self self' : SoxEffectsChain)
    (name : string) (eargs : value) :
  append_effect_to_chain fuel self name eargs = Some (self', Return tt) ->
  exists l : list scalar,
    eargs_list eargs = Scalar <$> l
    /\ self' = set_chain self
                 (chain self ++ [ {| ename := lower name; eopts := str <$> l |} ])
    /\ lower name ∈ EFFECTS_AVAILABLE self ∖ EFFECTS_UNIMPLEMENTED
    /\ (1 <= length l)%nat
    /\ Z.of_nat (length l) <= MAX_EFFECT_OPTS self
    /\ (length l < fuel)%nat.
Proof.
  unfold append_effect_to_chain.
  destruct (_check_effect self name) as [r|e0] eqn:Hc; [|discriminate].
  apply _check_effect_return_inv in Hc as (-> & Hnot & Hin).
  destruct (_flatten fuel (eargs_list eargs)) as [opts|] eqn:Hf; simpl; [|discriminate].
  apply _flatten_Some_inv in Hf as (l & Hl & -> & Hlt).
  rewrite length_fmap.
  destruct (Z.of_nat (length l) >? MAX_EFFECT_OPTS self) eqn:Hgt; [discriminate|].
  intros H. injection H as <-. exists l.
  split; [exact Hl|]. split; [reflexivity|].
  split; [apply elem_of_difference; split; assumption|].
  split; [exact (eargs_list_flat_nonempty eargs l Hl)|].
  split; [lia|exact Hlt].
Qed.

End AppendMore.

(** X3.  [append_effect_to_chain] fails to return, however many nested calls
    are allowed, exactly when the name is valid and the argument is a list
    with a list among its elements.  In every other case it returns or
    raises. *)
Theorem X3_append_never_returns_iff_nested `{T : Torchaudio}
    (self : SoxEffectsChain) (name : string) (eargs : value) :
  (forall fuel, append_effect_to_chain fuel self name eargs = None)
  <-> (exists r, _check_effect self name = Return r)
      /\ (exists l, eargs = List l /\ has_list_element l).
Proof.
  split.
  - intros H. destruct (_check_effect self name) as [r|e] eqn:Hc.
    + split; [eauto|]. apply eargs_list_has_list_element.
      destruct (flat_or_has_list_element (eargs_list eargs)) as [[l Hl]|Hn];
        [exfalso|exact Hn].
      specialize (H (S (length l))). unfold append_effect_to_chain in H.
      rewrite Hc, Hl, (_flatten_flat l) in H by lia. simpl in H.
      destruct (Z.of_nat (length (str <$> l)) >? MAX_EFFECT_OPTS self); discriminate.
    + specialize (H 0%nat). unfold append_effect_to_chain in H.
      rewrite Hc in H. discriminate.
  - intros [[r Hc] Hl] fuel.
    apply eargs_list_has_list_element in Hl as (pre & li & rest & Hx).
    unfold append_effect_to_chain. rewrite Hc, Hx, _flatten_nested. reflexivity.
Qed.

(** X4.  A call of [append_effect_to_chain] that returns normally was given
    an absent, scalar or flat-list argument; it leaves every attribute but
    [chain] as it was and stores, at the end of [chain], one effect: the
    lower-cased name, which is in the snapshot and not in the unimplemented
    set, with the strings of the arguments, at least one and at most
    [MAX_EFFECT_OPTS] of them. *)
Theorem X4_append_return_inversion `{T : Torchaudio} (fuel : nat)
    (self self' : SoxEffectsChain) (name : string) (eargs : value) :
  append_effect_to_chain fuel self name eargs = Some (self', Return tt) ->
  exists l : list scalar,
    eargs_list eargs = Scalar <$> l
    /\ self' = set_chain self
                 (chain self ++ [ {| ename := lower name; eopts := str <$> l |} ])
    /\ lower name ∈ EFFECTS_AVAILABLE self ∖ EFFECTS_UNIMPLEMENTED
    /\ (1 <= length l)%nat
    /\ Z.of_nat (length l) <= MAX_EFFECT_OPTS self.
Proof.
  intros H. apply append_effect_to_chain_return_inv in H as (l & H1 & H2 & H3 & H4 & H5 & _).
  exists l. auto.
Qed.

Lemma X4_append_return_inversion_witness :
  exists l : list scalar,
    eargs_list (Scalar None_) = Scalar <$> l
    /\ set_chain E0 [ {| ename := "vol"; eopts := [""] |} ]
       = set_chain E0 (chain E0 ++ [ {| ename := lower "VOL"; eopts := str <$> l |} ])
    /\ lower "VOL" ∈ EFFECTS_AVAILABLE E0 ∖ EFFECTS_UNIMPLEMENTED
    /\ (1 <= length l)%nat
    /\ Z.of_nat (length l) <= MAX_EFFECT_OPTS E0.
Proof.
  apply (@X4_append_return_inversion sox 2 E0
           (set_chain E0 [ {| ename := "vol"; eopts := [""] |} ]) "VOL" (Scalar None_)).
  vm_compute. reflexivity.
Defined.

(** X5.  For a valid name and an argument that normalises to the scalars
    [l], with enough nested calls allowed, the call returns normally exactly
    when [l] has at most [MAX_EFFECT_OPTS] entries and raises the "too many
    options" error exactly when it has more: [MAX_EFFECT_OPTS] options are
    accepted, one more is not. *)
Theorem X5_option_count_bound `{T : Torchaudio} (fuel : nat)
    (self : SoxEffectsChain) (name : string) (eargs : value) (l : list scalar) :
  lower name ∈ EFFECTS_AVAILABLE self ∖ EFFECTS_UNIMPLEMENTED ->
  eargs_list eargs = Scalar <$> l ->
  (length l < fuel)%nat ->
  (snd <$> append_effect_to_chain fuel self name eargs = Some (Return tt)
     <-> Z.of_nat (length l) <= MAX_EFFECT_OPTS self)
  /\ (snd <$> append_effect_to_chain fuel self name eargs
        = Some (Raise (too_many_options (length l) (MAX_EFFECT_OPTS self)))
      <-> MAX_EFFECT_OPTS self < Z.of_nat (length l)).
Proof.
  intros Hname Hl Hfuel.
  destruct (Z_le_gt_dec (Z.of_nat (length l)) (MAX_EFFECT_OPTS self)) as [Hle|Hgt].
  - rewrite (append_effect_to_chain_flat fuel self name eargs l) by assumption.
    simpl. split; split; try (intros _; reflexivity || assumption);
      try discriminate; lia.
  - rewrite (append_effect_to_chain_flat_too_many fuel self name eargs l)
      by (assumption || lia).
    simpl. split; split; try discriminate; try lia; intros _; reflexivity.
Qed.

Lemma X5_option_count_bound_witness :
  (snd <$> append_effect_to_chain 30 E0 "rate" (zeros 20) = Some (Return tt)
     <-> Z.of_nat (length (replicate 20 (Int 0))) <= MAX_EFFECT_OPTS E0)
  /\ (snd <$> append_effect_to_chain 30 E0 "rate" (zeros 20)
        = Some (Raise (too_many_options (length (replicate 20 (Int 0)))
                         (MAX_EFFECT_OPTS E0)))
      <-> MAX_EFFECT_OPTS E0 < Z.of_nat (length (replicate 20 (Int 0)))).
Proof.
  apply (@X5_option_count_bound sox 30 E0 "rate" (zeros 20) (replicate 20 (Int 0))).
  - by_eval.
  - reflexivity.
  - simpl. lia.
Defined.

(** ** Invariants of a chain object *)

Section ChainInvariants.
Context `{T : Torchaudio}.

Lemma append_effect_to_chain_inv (fuel : nat) (self self' : SoxEffectsChain)
    (name : string) (eargs : value) (o : outcome unit) :
  append_effect_to_chain fuel self name eargs = Some (self', o) ->
  self' = self
  \/ exists l : list scalar,
       self' = set_chain self
                 (chain self ++ [ {| ename := lower name; eopts := str <$> l |} ])
       /\ lower name ∈ EFFECTS_AVAILABLE self ∖ EFFECTS_UNIMPLEMENTED
       /\ (1 <= length l)%nat
       /\ Z.of_nat (length l) <= MAX_EFFECT_OPTS self.
Proof.
  intros H. destruct o as [[]|e].
  - right. apply append_effect_to_chain_return_inv in H
      as (l & _ & H2 & H3 & H4 & H5 & _). eauto.
  - left. exact (append_effect_to_chain_raise_inv _ _ _ _ _ _ H).
Qed.

Lemma sox_build_flow_effects_chain (self : SoxEffectsChain) (out : option Tensor) :
  fr_self (sox_build_flow_effects self out) = self
  \/ (chain self = []
      /\ fr_self (sox_build_flow_effects self out) = set_chain self [no_effects]).
Proof.
  destruct (chain self) as [|e0 c] eqn:Hc.
  - unfold sox_build_flow_effects. rewrite Hc.
    destruct out as [t|]; [destruct (check_input t) as [[]|e]|]; simpl;
      try (left; reflexivity).
    all: right; split; [reflexivity|];
      match goal with |- context [build_flow_effects ?a] =>
        destruct (build_flow_effects a) as [o [sr|e]] end; reflexivity.
  - left. apply sox_build_flow_effects_nonempty. rewrite Hc. discriminate.
Qed.

Lemma chain_step_same_config (self self' : SoxEffectsChain) :
  chain_step self self' -> same_config self self'.
Proof.
  intros [fuel name eargs s o H|out| |f]; unfold same_config.
  - apply append_effect_to_chain_inv in H as [->|(l & -> & _)]; simpl; tauto.
  - destruct (sox_build_flow_effects_chain self out) as [->|[_ ->]]; simpl; tauto.
  - simpl; tauto.
  - simpl; tauto.
Qed.

Lemma validated_same_config (self self' : SoxEffectsChain) (e : SoxEffect) :
  same_config self self' -> validated self e -> validated self' e.
Proof.
  unfold same_config, validated. intros (-> & _ & _ & _ & _ & _ & ->). tauto.
Qed.

Lemma chain_step_stored_ok (self self' : SoxEffectsChain) :
  chain_step self self' -> stored_ok self -> stored_ok self'.
Proof.
  intros Hstep (c & Hc & Hshape).
  pose proof (chain_step_same_config self self' Hstep) as Hcfg.
  assert (Hc' : Forall (validated self') c).
  { eapply Forall_impl; [exact Hc|]. intros e. apply validated_same_config, Hcfg. }
  destruct Hstep as [fuel name eargs s o H|out| |f].
  - apply append_effect_to_chain_inv in H as [->|(l & -> & Hname & H1 & Hmax)].
    + exists c. split; assumption.
    + exists (c ++ [ {| ename := lower name; eopts := str <$> l |} ]). split.
      * apply Forall_app. split; [exact Hc'|]. constructor; [|constructor].
        unfold validated. simpl. rewrite length_fmap, lower_no_upper. auto.
      * simpl. destruct Hshape as [->| ->]; [left|right]; reflexivity.
  - destruct (sox_build_flow_effects_chain self out) as [Heq|[Hnil Heq]];
      rewrite Heq in *.
    + exists c. split; assumption.
    + exists []. split; [constructor|]. right. reflexivity.
  - exists []. split; [constructor|]. left. reflexivity.
  - exists c. split; assumption.
Qed.

End ChainInvariants.

(** X6.  Whatever methods are called on a chain built by [__init__], in
    whatever order, every stored effect has passed the tests of
    [append_effect_to_chain] (a lower-case name in the snapshot and not in
    the unimplemented set, between one and [MAX_EFFECT_OPTS] options),
    except for at most one sentinel "no_effects", which can only be the
    first entry. *)
Theorem X6_stored_effects_are_validated `{T : Torchaudio}
    (norm : Normalization) (cf : bool) (sig enc : Any) (ft : string)
    (self : SoxEffectsChain) :
  rtc chain_step (__init__ norm cf sig enc ft) self -> stored_ok self.
Proof.
  revert self. apply rtc_ind_r.
  - exists []. split; [constructor|]. left. reflexivity.
  - intros s1 s2 _ Hstep IH. exact (chain_step_stored_ok _ _ Hstep IH).
Qed.

Lemma X6_stored_effects_are_validated_witness :
  stored_ok (set_chain E0 [no_effects; {| ename := "vol"; eopts := ["3"] |}]).
Proof.
  apply (@X6_stored_effects_are_validated sox true true tt tt "raw").
  eapply rtc_l; [apply (step_flow _ None)|].
  apply rtc_once.
  apply (step_append _ 3%nat "VOL" (Scalar (Int 3)) _ (Return tt)).
  vm_compute. reflexivity.
Defined.

(** X7.  No method changes what [__init__] set up: after any sequence of
    calls the options bound is still 20, the snapshot is still the set of
    names the engine reported, and the hints, file type, normalization and
    channel flag are the constructor's arguments. *)
Theorem X7_configuration_is_never_changed `{T : Torchaudio}
    (norm : Normalization) (cf : bool) (sig enc : Any) (ft : string)
    (self : SoxEffectsChain) :
  rtc chain_step (__init__ norm cf sig enc ft) self ->
  MAX_EFFECT_OPTS self = 20
  /\ EFFECTS_AVAILABLE self = list_to_set get_effect_names
  /\ out_siginfo self = sig /\ out_encinfo self = enc /\ filetype self = ft
  /\ normalization self = norm /\ channels_first self = cf.
Proof.
  revert self. apply rtc_ind_r.
  - repeat split; reflexivity.
  - intros s1 s2 _ Hstep IH. apply chain_step_same_config in Hstep.
    destruct Hstep as (-> & -> & -> & -> & -> & -> & ->). exact IH.
Qed.

Lemma X7_configuration_is_never_changed_witness :
  let self := set_input_file (clear_chain E0) "a.wav" in
  MAX_EFFECT_OPTS self = 20
  /\ EFFECTS_AVAILABLE self = list_to_set (@get_effect_names sox)
  /\ out_siginfo self = tt /\ out_encinfo self = tt /\ filetype self = "raw"
  /\ normalization self = true /\ channels_first self = true.
Proof.
  apply (@X7_configuration_is_never_changed sox true true tt tt "raw").
  eapply rtc_l; [apply step_clear|]. apply rtc_once, step_set_input_file.
Defined.

(** ** [sox_build_flow_effects] *)

Section FlowMore.
Context `{T : Torchaudio}.

Lemma sox_build_flow_effects_accepted (self : SoxEffectsChain) (out : option Tensor) :
  out_accepted out ->
  let r := sox_build_flow_effects self out in
  let args :=
    mkFlowArgs (input_file self) (out_tensor out) (channels_first self)
      (out_siginfo self) (out_encinfo self) (filetype self)
      (chain (fr_self r)) (MAX_EFFECT_OPTS self) in
  fr_engine_calls r = [args]
  /\ fr_self r = set_chain self (if chain self is [] then [no_effects] else chain self)
  /\ fr_outcome r = match build_flow_effects args with
                    | (t, Return sr) => Return (normalize_audio t (normalization self), sr)
                    | (_, Raise e) => Raise e
                    end.
Proof.
  intros Hout. unfold sox_build_flow_effects.
  destruct out as [t|]; simpl in Hout;
    [destruct (check_input t) as [[]|e]; simpl in Hout; [|discriminate]|];
    simpl; destruct (chain self) as [|e0 c] eqn:Hc; simpl;
    rewrite ?Hc;
    match goal with |- context [build_flow_effects ?a] =>
      destruct (build_flow_effects a) as [o [sr|e]] eqn:Hb end; simpl;
    rewrite ?Hc, ?Hb; repeat split; try reflexivity;
    destruct self; simpl in *; subst; reflexivity.
Qed.

Lemma sox_build_flow_effects_rejected (self : SoxEffectsChain) (out : option Tensor) :
  ~ out_accepted out ->
  exists e, sox_build_flow_effects self out
            = {| fr_self := self; fr_engine_calls := []; fr_outcome := Raise e |}.
Proof.
  intros Hout. unfold sox_build_flow_effects.
  destruct out as [t|]; simpl in Hout; [|tauto].
  destruct (check_input t) as [[]|e]; simpl in Hout; [tauto|]. eauto.
Qed.

Lemma out_accepted_dec (out : option Tensor) : {out_accepted out} + {~ out_accepted out}.
Proof.
  destruct out as [t|]; simpl; [|left; exact I].
  destruct (is_raise (check_input t)); [right; discriminate|left; reflexivity].
Qed.

End FlowMore.

(** X8.  With an accepted output tensor, [sox_build_flow_effects] calls the
    engine exactly once, with the object's input file, flag, hints, file type
    and bound, with the caller's tensor or a new empty one, and with the
    stored effect sequence as it is after the call.  It returns the engine's
    tensor passed through [normalize_audio] once together with the engine's
    sample rate, or raises what the engine raised. *)
Theorem X8_flow_request_and_result `{T : Torchaudio}
    (self : SoxEffectsChain) (out : option Tensor) :
  out_accepted out ->
  let r := sox_build_flow_effects self out in
  let args :=
    mkFlowArgs (input_file self) (out_tensor out) (channels_first self)
      (out_siginfo self) (out_encinfo self) (filetype self)
      (chain (fr_self r)) (MAX_EFFECT_OPTS self) in
  fr_engine_calls r = [args]
  /\ fr_outcome r = match build_flow_effects args with
                    | (t, Return sr) => Return (normalize_audio t (normalization self), sr)
                    | (_, Raise e) => Raise e
                    end.
Proof.
  intros Hout r args.
  destruct (sox_build_flow_effects_accepted self out Hout) as (H1 & _ & H3).
  split; assumption.
Qed.

Lemma X8_flow_request_and_result_witness :
  fr_engine_calls (sox_build_flow_effects (set_input_file E0 "a.wav") (Some [7]))
    = [ mkFlowArgs (Some "a.wav") [7] true tt tt "raw" [no_effects] 20 ]
  /\ fr_outcome (sox_build_flow_effects (set_input_file E0 "a.wav") (Some [7]))
     = Return ([7; 0], 16000).
Proof.
  apply (@X8_flow_request_and_result sox (set_input_file E0 "a.wav") (Some [7])).
  reflexivity.
Defined.

(** X9.  The engine is called exactly when the output tensor is accepted,
    and the object changes exactly when, in addition, its chain is empty;
    the engine never receives an empty effect sequence.  A rejected tensor
    leaves an empty chain empty. *)
Theorem X9_flow_effects_on_object `{T : Torchaudio}
    (self : SoxEffectsChain) (out : option Tensor) :
  let r := sox_build_flow_effects self out in
  (fr_engine_calls r <> [] <-> out_accepted out)
  /\ (fr_self r <> self <-> chain self = [] /\ out_accepted out)
  /\ Forall (fun a => fa_chain a <> []) (fr_engine_calls r).
Proof.
  intros r. subst r. destruct (out_accepted_dec out) as [Hacc|Hrej].
  - destruct (sox_build_flow_effects_accepted self out Hacc) as (H1 & H2 & _).
    rewrite H1, H2. split; [|split].
    + split; [intros _; exact Hacc|discriminate].
    + split.
      * intros Hne. split; [|exact Hacc].
        destruct (chain self) as [|e0 c] eqn:Hc; [reflexivity|].
        exfalso. apply Hne. rewrite <- Hc. apply set_chain_same.
      * intros [Hc _] Heq. rewrite Hc in Heq.
        apply (f_equal chain) in Heq. simpl in Heq. rewrite Hc in Heq. discriminate.
    + constructor; [|constructor]. simpl. destruct (chain self); discriminate.
  - destruct (sox_build_flow_effects_rejected self out Hrej) as [e ->]. simpl.
    split; [|split].
    + split; [intros H; contradiction|intros H; contradiction].
    + split; [intros H; contradiction|intros [_ H]; contradiction].
    + constructor.
Qed.

(** X10.  Running the chain again leaves the object as the first run left
    it and hands the engine the same effect sequence: the sentinel is added
    at most once. *)
Theorem X10_flow_twice `{T : Torchaudio}
    (self : SoxEffectsChain) (out out' : option Tensor) :
  out_accepted out -> out_accepted out' ->
  let r1 := sox_build_flow_effects self out in
  let r2 := sox_build_flow_effects (fr_self r1) out' in
  fr_self r2 = fr_self r1
  /\ fa_chain <$> fr_engine_calls r2 = fa_chain <$> fr_engine_calls r1.
Proof.
  intros Hout Hout' r1 r2.
  destruct (sox_build_flow_effects_accepted self out Hout) as (H1 & H2 & _).
  destruct (sox_build_flow_effects_accepted (fr_self r1) out' Hout') as (H1' & _).
  fold r1 in H1, H2. fold r2 in H1'.
  assert (Hne : chain (fr_self r1) <> []).
  { rewrite H2. simpl. destruct (chain self); discriminate. }
  assert (Hself : fr_self r2 = fr_self r1)
    by (apply sox_build_flow_effects_nonempty, Hne).
  split; [exact Hself|].
  rewrite H1, H1'. simpl. rewrite Hself. reflexivity.
Qed.

Lemma X10_flow_twice_witness :
  fr_self (sox_build_flow_effects (fr_self (sox_build_flow_effects E0 None)) (Some [1]))
    = fr_self (sox_build_flow_effects E0 None)
  /\ fa_chain <$> fr_engine_calls
       (sox_build_flow_effects (fr_self (sox_build_flow_effects E0 None)) (Some [1]))
     = fa_chain <$> fr_engine_calls (sox_build_flow_effects E0 None).
Proof.
  apply (@X10_flow_twice sox E0 None (Some [1])); [exact I|reflexivity].
Defined.

(** X11.  An effect appended after an empty chain has been run is stored
    behind the sentinel, and the next run hands the engine the sentinel
    followed by that effect. *)
Theorem X11_append_after_empty_run `{T : Torchaudio} (fuel : nat)
    (self : SoxEffectsChain) (out : option Tensor)
    (name : string) (eargs : value) (l : list scalar) :
  chain self = [] -> out_accepted out ->
  lower name ∈ EFFECTS_AVAILABLE self ∖ EFFECTS_UNIMPLEMENTED ->
  eargs_list eargs = Scalar <$> l ->
  Z.of_nat (length l) <= MAX_EFFECT_OPTS self ->
  (length l < fuel)%nat ->
  let A := {| ename := lower name; eopts := str <$> l |} in
  let self1 := fr_self (sox_build_flow_effects self out) in
  append_effect_to_chain fuel self1 name eargs
    = Some (set_chain self [no_effects; A], Return tt)
  /\ fa_chain <$> fr_engine_calls
       (sox_build_flow_effects (set_chain self [no_effects; A]) None)
     = [[no_effects; A]].
Proof.
  intros Hc Hout Hname Hl Hmax Hfuel A self1.
  destruct (sox_build_flow_effects_accepted self out Hout) as (_ & H2 & _).
  fold self1 in H2. rewrite Hc in H2. split.
  - rewrite H2.
    rewrite (append_effect_to_chain_flat fuel _ name eargs l) by assumption.
    reflexivity.
  - destruct (sox_build_flow_effects_accepted (set_chain self [no_effects; A]) None I)
      as (H1 & H2' & _).
    rewrite H1. simpl. rewrite H2'. reflexivity.
Qed.

Lemma X11_append_after_empty_run_witness :
  append_effect_to_chain 3 (fr_self (sox_build_flow_effects E0 None)) "rate"
      (Scalar (Int 8000))
    = Some (set_chain E0 [no_effects; {| ename := "rate"; eopts := ["8000"] |}],
            Return tt)
  /\ fa_chain <$> fr_engine_calls
       (sox_build_flow_effects
          (set_chain E0 [no_effects; {| ename := "rate"; eopts := ["8000"] |}]) None)
     = [[no_effects; {| ename := "rate"; eopts := ["8000"] |}]].
Proof.
  apply (@X11_append_after_empty_run sox 3 E0 None "rate" (Scalar (Int 8000))
           [Int 8000]).
  - reflexivity.
  - exact I.
  - by_eval.
  - reflexivity.
  - vm_compute. discriminate.
  - simpl. lia.
Defined.

(** ** [set_input_file], [clear_chain] and how the methods compose *)

(** X12.  The engine is given the file of the latest [set_input_file]: a
    second call replaces the first, and running the chain neither changes
    nor checks the file.  A chain that never had a file set is run all the
    same, with no file ([None]) handed to the engine. *)
Theorem X12_input_file_reaches_engine `{T : Torchaudio}
    (self : SoxEffectsChain) (f g : string) (out : option Tensor) :
  out_accepted out ->
  set_input_file (set_input_file self f) g = set_input_file self g
  /\ fa_input_file <$> fr_engine_calls
       (sox_build_flow_effects (set_input_file (set_input_file self f) g) out)
     = [Some g]
  /\ input_file (fr_self (sox_build_flow_effects (set_input_file self g) out)) = Some g
  /\ (forall norm cf sig enc ft,
        fa_input_file <$> fr_engine_calls
          (sox_build_flow_effects (__init__ norm cf sig enc ft) out) = [None]).
Proof.
  intros Hout. split; [reflexivity|]. split; [|split].
  - destruct (sox_build_flow_effects_accepted
                (set_input_file (set_input_file self f) g) out Hout) as (H1 & _).
    rewrite H1. reflexivity.
  - destruct (sox_build_flow_effects_accepted (set_input_file self g) out Hout)
      as (_ & H2 & _).
    rewrite H2. reflexivity.
  - intros norm cf sig enc ft.
    destruct (sox_build_flow_effects_accepted (__init__ norm cf sig enc ft) out Hout)
      as (H1 & _).
    rewrite H1. reflexivity.
Qed.

Lemma X12_input_file_reaches_engine_witness :
  fa_input_file <$> fr_engine_calls
    (sox_build_flow_effects (set_input_file (set_input_file E0 "a.wav") "b.wav") None)
  = [Some "b.wav"].
Proof.
  apply (@X12_input_file_reaches_engine sox E0 "a.wav" "b.wav" None). exact I.
Defined.

(** X13.  Setting the input file and building the chain are independent:
    [append_effect_to_chain] ends the same way and stores the same effect
    whether the file is set before or after it, and so does [clear_chain]. *)
Theorem X13_input_file_commutes `{T : Torchaudio} (fuel : nat)
    (self : SoxEffectsChain) (f name : string) (eargs : value) :
  append_effect_to_chain fuel (set_input_file self f) name eargs
    = prod_map (fun s => set_input_file s f) id
        <$> append_effect_to_chain fuel self name eargs
  /\ clear_chain (set_input_file self f) = set_input_file (clear_chain self) f.
Proof.
  split; [|reflexivity].
  unfold append_effect_to_chain.
  change (_check_effect (set_input_file self f) name) with (_check_effect self name).
  destruct (_check_effect self name) as [r|e]; [|reflexivity].
  destruct (_flatten fuel (eargs_list eargs)) as [opts|]; [|reflexivity]. simpl.
  destruct (Z.of_nat (length opts) >? MAX_EFFECT_OPTS self); reflexivity.
Qed.

(** X14.  [clear_chain] brings the object back to where [clear_chain] would
    have brought it before an append and a run: it removes the appended
    effect and the sentinel alike, and nothing else. *)
Theorem X14_clear_after_append_and_run `{T : Torchaudio} (fuel : nat)
    (self self' : SoxEffectsChain) (name : string) (eargs : value)
    (o : outcome unit) (out : option Tensor) :
  append_effect_to_chain fuel self name eargs = Some (self', o) ->
  clear_chain (fr_self (sox_build_flow_effects self' out)) = clear_chain self
  /\ chain (clear_chain (fr_self (sox_build_flow_effects self' out))) = [].
Proof.
  intros H. split; [|reflexivity].
  unfold clear_chain. rewrite sox_build_flow_effects_frame.
  apply append_effect_to_chain_inv in H as [->|(l & -> & _)]; reflexivity.
Qed.

Lemma X14_clear_after_append_and_run_witness :
  clear_chain (fr_self (sox_build_flow_effects
                          (set_chain E0 [ {| ename := "vol"; eopts := ["3"] |} ]) None))
    = clear_chain E0
  /\ chain (clear_chain (fr_self (sox_build_flow_effects
              (set_chain E0 [ {| ename := "vol"; eopts := ["3"] |} ]) None))) = [].
Proof.
  apply (@X14_clear_after_append_and_run sox 3 E0 _ "vol" (Scalar (Int 3)) (Return tt)).
  vm_compute. reflexivity.
Defined.

(** ** Validation *)

(** X15.  A validated name has no upper-case letter and validates to itself
    again; and validation does not see the case of its input: every name
    with the same lower-cased form validates to the same result. *)
Theorem X15_validation_is_idempotent `{T : Torchaudio}
    (self : SoxEffectsChain) (name r : string) :
  _check_effect self name = Return r ->
  has_upper r = false
  /\ _check_effect self r = Return r
  /\ (forall name', lower name' = lower name -> _check_effect self name' = Return r).
Proof.
  intros H. apply _check_effect_return_inv in H as (-> & Hnot & Hin).
  split; [apply lower_no_upper|].
  assert (Hsame : forall name', lower name' = lower name ->
                    _check_effect self name' = Return (lower name)).
  { intros name' Heq. rewrite <- Heq. apply _check_effect_valid; rewrite Heq; assumption. }
  split; [|exact Hsame].
  apply Hsame. clear. induction name as [|c s IH]; simpl; [reflexivity|].
  rewrite IH. f_equal. destruct c as [[] [] [] [] [] [] [] []]; reflexivity.
Qed.

Lemma X15_validation_is_idempotent_witness :
  has_upper "rate" = false
  /\ _check_effect E0 "rate" = Return "rate"
  /\ (forall name', lower name' = lower "RaTe" -> _check_effect E0 name' = Return "rate").
Proof.
  apply (@X15_validation_is_idempotent sox E0 "RaTe" "rate"). vm_compute. reflexivity.
Defined.

(** X16.  In a chain fresh from [__init__] a name is valid exactly when its
    lower-cased form is among the names the engine reported (wherever and
    however often in the list) and is not one of "spectrogram", "splice",
    "noiseprof" and "fir". *)
Theorem X16_fresh_chain_valid_names `{T : Torchaudio}
    (norm : Normalization) (cf : bool) (sig enc : Any) (ft : string) (name : string) :
  _check_effect (__init__ norm cf sig enc ft) name = Return (lower name)
  <-> lower name ∈ get_effect_names
      /\ lower name ∉ ["spectrogram"; "splice"; "noiseprof"; "fir"].
Proof.
  assert (HU : forall x, x ∈ EFFECTS_UNIMPLEMENTED
                         <-> x ∈ ["spectrogram"; "splice"; "noiseprof"; "fir"]).
  { intros x. unfold EFFECTS_UNIMPLEMENTED.
    rewrite !elem_of_union, !elem_of_singleton, !elem_of_cons, elem_of_nil. tauto. }
  split.
  - intros H. apply _check_effect_return_inv in H as (_ & Hnot & Hin).
    simpl in Hin. unfold effect_names in Hin. rewrite elem_of_list_to_set in Hin.
    split; [exact Hin|]. rewrite <- HU. exact Hnot.
  - intros [Hin Hnot]. apply _check_effect_valid.
    + rewrite HU. exact Hnot.
    + simpl. unfold effect_names. rewrite elem_of_list_to_set. exact Hin.
Qed.

(** ** Runs of [initialize_sox] and [shutdown_sox] *)

Section LifecycleRuns.
Context `{T : Torchaudio}.

Lemma replicate_snoc {A} (n : nat) (x : A) : replicate n x ++ [x] = replicate (S n) x.
Proof. induction n as [|n IH]; simpl; [reflexivity|]. rewrite IH. reflexivity. Qed.

(** What one call does, by the state it finds. *)
Lemma lifecycle_step_inv (p p' : process) :
  lifecycle_step p p' ->
  p' = p
  \/ (_SOX_INITIALIZED p = Some false
      /\ ext_calls p' = ext_calls p ++ [ExtInitializeSox]
      /\ ((ext_initialize_sox (ext_calls p) = 0
           /\ _SOX_INITIALIZED p' = Some true
           /\ atexit_registered p' = atexit_registered p ++ [AtexitShutdownSox])
          \/ (ext_initialize_sox (ext_calls p) <> 0
              /\ _SOX_INITIALIZED p' = Some false
              /\ atexit_registered p' = atexit_registered p)))
  \/ (_SOX_INITIALIZED p = Some true
      /\ ext_calls p' = ext_calls p ++ [ExtShutdownSox]
      /\ atexit_registered p' = atexit_registered p
      /\ ((ext_shutdown_sox (ext_calls p) = 1 /\ _SOX_INITIALIZED p' = None)
          \/ (ext_shutdown_sox (ext_calls p) <> 1 /\ _SOX_INITIALIZED p' = Some true))).
Proof.
  intros [|].
  - unfold initialize_sox, _SOX_SUCCESS_CODE.
    destruct (_SOX_INITIALIZED p) as [[|]|] eqn:Hf; simpl; auto.
    right; left. split; [reflexivity|].
    destruct (Z.eqb_spec (ext_initialize_sox (ext_calls p)) 0) as [Hc|Hc];
      simpl; rewrite ?Hf; auto 8.
  - unfold shutdown_sox.
    destruct (_SOX_INITIALIZED p) as [[|]|] eqn:Hf; simpl; auto.
    right; right. split; [reflexivity|].
    destruct (Z.eqb_spec (ext_shutdown_sox (ext_calls p)) 1) as [Hc|Hc];
      simpl; rewrite ?Hf; auto 8.
Qed.

Lemma lifecycle_step_preserves_inv (p p' : process) :
  lifecycle_step p p' -> lifecycle_inv p -> lifecycle_inv p'.
Proof.
  intros Hstep (n & m & Hcalls & Hinv).
  apply lifecycle_step_inv in Hstep
    as [->|[(Hf & Hc' & Hcase)|(Hf & Hc' & Hat & Hcase)]].
  - exists n, m. auto.
  - rewrite Hf in Hinv. destruct Hinv as [-> Hat].
    simpl in Hcalls. rewrite app_nil_r in Hcalls.
    exists (S n), 0%nat. rewrite Hc', Hcalls, replicate_snoc. simpl.
    rewrite app_nil_r. split; [reflexivity|].
    destruct Hcase as [(_ & -> & ->)|(_ & -> & ->)]; rewrite Hat; simpl;
      split; [lia|reflexivity|reflexivity|reflexivity].
  - rewrite Hf in Hinv. destruct Hinv as [Hn Hat0].
    exists n, (S m). rewrite Hc', Hcalls, <- app_assoc, replicate_snoc.
    split; [reflexivity|].
    destruct Hcase as [(_ & ->)|(_ & ->)]; rewrite Hat, Hat0; repeat split; lia.
Qed.

Lemma lifecycle_run_inv (p : process) :
  rtc lifecycle_step process_init p -> lifecycle_inv p.
Proof.
  revert p. apply rtc_ind_r.
  - exists 0%nat, 0%nat. simpl. auto.
  - intros p1 p2 _ Hstep IH. exact (lifecycle_step_preserves_inv _ _ Hstep IH).
Qed.

Lemma lifecycle_step_phase (p p' : process) :
  lifecycle_step p p' -> (phase p <= phase p')%nat.
Proof.
  intros Hstep. unfold phase.
  apply lifecycle_step_inv in Hstep as [->|[(Hf & _ & Hcase)|(Hf & _ & _ & Hcase)]].
  - lia.
  - rewrite Hf. destruct Hcase as [(_ & -> & _)|(_ & -> & _)]; lia.
  - rewrite Hf. destruct Hcase as [(_ & ->)|(_ & ->)]; lia.
Qed.

End LifecycleRuns.

(** X17.  However [initialize_sox] and [shutdown_sox] are called from import
    on, [shutdown_sox] is registered with [atexit] at most once: not at all
    while the flag is [False], exactly once as soon as an initialization has
    succeeded, also after later calls of either function. *)
Theorem X17_exit_handler_registered_once `{T : Torchaudio} (p : process) :
  rtc lifecycle_step process_init p ->
  atexit_registered p
    = (if decide (_SOX_INITIALIZED p = Some false) then [] else [AtexitShutdownSox]).
Proof.
  intros H. apply lifecycle_run_inv in H as (n & m & _ & Hinv).
  destruct (_SOX_INITIALIZED p) as [[|]|];
    destruct (decide _) as [Hd|Hd]; try discriminate Hd; try congruence; tauto.
Qed.

Lemma X17_exit_handler_registered_once_witness :
  atexit_registered
    (fst (initialize_sox (T:=sox) (fst (shutdown_sox (T:=sox) p_initialized))))
  = [AtexitShutdownSox].
Proof.
  apply (@X17_exit_handler_registered_once sox).
  eapply rtc_l; [apply step_initialize|].
  eapply rtc_l; [apply step_shutdown|].
  apply rtc_once, step_initialize.
Defined.

(** X18.  The calls made into the engine, in order, are some
    [initialize_sox] calls followed by some [shutdown_sox] calls: the engine
    is never shut down before it was initialized, and never initialized
    after a shutdown call.  While the flag is [False] no shutdown call has
    been made; once it is [True] or [None] an initialize call has, and once
    it is [None] a shutdown call has. *)
Theorem X18_engine_calls_in_order `{T : Torchaudio} (p : process) :
  rtc lifecycle_step process_init p ->
  exists n m : nat,
    ext_calls p = replicate n ExtInitializeSox ++ replicate m ExtShutdownSox
    /\ match _SOX_INITIALIZED p with
       | Some false => m = 0%nat
       | Some true => (1 <= n)%nat
       | None => (1 <= n)%nat /\ (1 <= m)%nat
       end.
Proof.
  intros H. apply lifecycle_run_inv in H as (n & m & Hcalls & Hinv).
  exists n, m. split; [exact Hcalls|].
  destruct (_SOX_INITIALIZED p) as [[|]|]; tauto.
Qed.

Lemma X18_engine_calls_in_order_witness :
  exists n m : nat,
    ext_calls (fst (shutdown_sox (T:=sox_flaky)
                 (fst (initialize_sox (T:=sox_flaky)
                    (fst (initialize_sox (T:=sox_flaky) process_init))))))
      = replicate n ExtInitializeSox ++ replicate m ExtShutdownSox
    /\ (1 <= n)%nat.
Proof.
  apply (@X18_engine_calls_in_order sox_flaky
           (fst (shutdown_sox (T:=sox_flaky)
              (fst (initialize_sox (T:=sox_flaky)
                 (fst (initialize_sox (T:=sox_flaky) process_init))))))).
  eapply rtc_l; [apply step_initialize|].
  eapply rtc_l; [apply step_initialize|].
  apply rtc_once, step_shutdown.
Defined.

(** X19.  The shut-down state is final: once the flag is [None], no call of
    either function changes the flag, the exit handlers or the engine log,
    no call reaches the engine, [initialize_sox] raises [RuntimeError] and
    [shutdown_sox] returns 0. *)
Theorem X19_shut_down_is_final `{T : Torchaudio} (p p' : process) :
  _SOX_INITIALIZED p = None -> rtc lifecycle_step p p' ->
  p' = p
  /\ (exists msg, initialize_sox p' = (p', Raise (RuntimeError msg)))
  /\ shutdown_sox p' = (p', Return 0).
Proof.
  intros Hf Hrun.
  assert (Heq : p' = p).
  { revert p' Hrun. apply rtc_ind_r; [reflexivity|].
    intros p1 p2 _ Hstep ->.
    apply lifecycle_step_inv in Hstep as [->|[(Hf' & _)|(Hf' & _)]];
      [reflexivity|congruence|congruence]. }
  subst p'. split; [reflexivity|]. split.
  - apply initialize_sox_after_shutdown, Hf.
  - unfold shutdown_sox. rewrite Hf. reflexivity.
Qed.

Lemma X19_shut_down_is_final_witness :
  let p := {| _SOX_INITIALIZED := None; atexit_registered := [AtexitShutdownSox];
              ext_calls := [ExtInitializeSox; ExtShutdownSox] |} in
  fst (shutdown_sox (T:=sox) (fst (initialize_sox (T:=sox) p))) = p.
Proof.
  intros p.
  apply (@X19_shut_down_is_final sox p
           (fst (shutdown_sox (T:=sox) (fst (initialize_sox (T:=sox) p))))).
  - reflexivity.
  - eapply rtc_l; [apply step_initialize|]. apply rtc_once, step_shutdown.
Defined.

(** X20.  The flag only moves forward along False, True, None: no call of
    either function takes an initialized process back to uninitialized, or
    a shut-down process back to either. *)
Theorem X20_flag_moves_forward `{T : Torchaudio} (p p' : process) :
  rtc lifecycle_step p p' -> (phase p <= phase p')%nat.
Proof.
  revert p'. apply rtc_ind_r; [lia|].
  intros p1 p2 _ Hstep IH. apply lifecycle_step_phase in Hstep. lia.
Qed.

Lemma X20_flag_moves_forward_witness :
  (phase p_initialized <= phase (fst (shutdown_sox (T:=sox) p_initialized)))%nat.
Proof.
  apply (@X20_flag_moves_forward sox). apply rtc_once, step_shutdown.
Defined.

(** X21.  The shut-down state is entered only by a [shutdown_sox] call whose
    engine status is 1.  With an engine whose shutdown never reports 1 (one
    that reports the success status 0, say) the flag never becomes [None],
    whatever calls are made. *)
Theorem X21_shut_down_needs_status_one `{T : Torchaudio} (p p' : process) :
  (forall calls, ext_shutdown_sox calls <> 1) ->
  _SOX_INITIALIZED p <> None ->
  rtc lifecycle_step p p' ->
  _SOX_INITIALIZED p' <> None.
Proof.
  intros Hcode Hf. revert p'. apply rtc_ind_r; [exact Hf|].
  intros p1 p2 _ Hstep IH.
  apply lifecycle_step_inv in Hstep as [->|[(_ & _ & Hcase)|(_ & _ & _ & Hcase)]].
  - exact IH.
  - destruct Hcase as [(_ & -> & _)|(_ & -> & _)]; discriminate.
  - destruct Hcase as [(Hc & _)|(_ & ->)]; [|discriminate].
    exfalso. exact (Hcode _ Hc).
Qed.

Lemma X21_shut_down_needs_status_one_witness :
  _SOX_INITIALIZED (fst (shutdown_sox (T:=sox) p_initialized)) <> None.
Proof.
  apply (@X21_shut_down_needs_status_one sox p_initialized).
  - intros calls. vm_compute. discriminate.
  - vm_compute. discriminate.
  - apply rtc_once, step_shutdown.
Defined.
